(** * godog-helpers: the [datatable] package

    A shallow embedding of [datatable/datatable.go] and the properties of
    its constructors, schema validation, row search and row mutation.

    Conventions of the embedding.
    - A Go [[]string] is a [list string]; [[][]string] is a list of those.
      [len] is the Go builtin, an [int]; slice lengths never leave the
      range of [int], so no wrap-around arises from them.
    - A Go [int] index is a [Z].
    - A [*Options] or [*DataTable] is an [option]: [None] is [nil].
    - A Go [error] value is an [option error]: [None] is the [nil] error.
      The package builds its errors with [fmt.Errorf] / [errors.New]; the
      constructors of [error] stand for the four messages and carry the
      arguments the message is formatted from.
    - A run-time panic of the Go runtime (index or slice bounds) is the
      [Panic] outcome of [exec]; it is not an [error] value.
    - Methods that assign to the receiver ([AppendRow], [RemoveRow]) take
      the table and return the table afterwards next to their result.
    - The functions on values say what a call returns and what the table
      it is called on holds afterwards.  Go slices share their arrays:
      the module [Slices] below has the slices with their storage, and
      there [NewWithOptions], [validateFields], [AppendRow] and
      [RemoveRow] write the arrays as the source does.  The two readings
      are compared in the last part of the file.

    - A Go [map[string]string] is a [gmap string string]; assigning
      [m[k] = v] is [<[k:=v]> m].
    - The method [Rows] of [DataTable] is [DataTable_Rows] here, the name
      [Rows] being taken by the field of [gherkin.DataTable].

    [PrettyJSON] hands the result of [Rows] to [json.Marshal] and
    [pretty.Pretty], both outside the package, and is not covered. *)

From stdpp Require Import gmap strings.
From Stdlib Require Import String List ZArith Bool Lia.
Import ListNotations.

Local Open Scope string_scope.
Local Open Scope Z_scope.
Local Open Scope list_scope.

(** ** Outcomes *)

(** The errors the package returns.
    - [ErrRowLength e a]: ["expected row length of %d, got %d"], from
      [NewWithOptions] and [AppendRow] (the spec's ArityError);
    - [ErrTooFewRows]: ["data table must have at least two rows"] (the
      spec's MalformedTableError);
    - [ErrMissingField f]: ["data table is missing required field %q"]
      (the spec's MissingFieldError);
    - [ErrAdditionalField f allowed]: ["data table contains additional
      field %q, allowed fields are ..."] (the spec's UnknownFieldError). *)
Inductive error : Type :=
| ErrRowLength (expected actual : Z)
| ErrTooFewRows
| ErrMissingField (field : string)
| ErrAdditionalField (field : string) (allowedFields : list string).

(** Panics raised by the Go runtime itself. *)
Inductive runtime_panic : Type :=
| IndexOutOfRange (index length : Z)
| SliceBoundsOutOfRange.

(** The outcome of running Go code that may panic. *)
Inductive exec (A : Type) : Type :=
| Ret (a : A)
| Panic (p : runtime_panic).

Arguments Ret {A} a.
Arguments Panic {A} p.

(** ** Data model *)

Record Options : Type := mkOptions {
  OptionalFields : list string;
  RequiredFields : list string
}.

Record DataTable : Type := mkDataTable {
  fields : list string;
  rows : list (list string);
  options : option Options
}.

(** The Go builtin [len]. *)
Definition len {A : Type} (s : list A) : Z := Z.of_nat (length s).

(** The part of [gherkin.DataTable] the package reads: rows of cells, each
    cell with a string [Value].  The pointers [*TableRow] and [*TableCell]
    are modelled by what they point to, as the gherkin parser (and the
    tests' [buildTable]) produce them. *)
Record TableCell : Type := mkTableCell { Value : string }.
Record TableRow : Type := mkTableRow { Cells : list TableCell }.
Record GherkinDataTable : Type := mkGherkinDataTable { Rows : list TableRow }.

(** ** Helpers of the package *)

(** [contains]: true when [haystack] has an element equal to [needle]. *)
Fixpoint contains (haystack : list string) (needle : string) : bool :=
  match haystack with
  | [] => false
  | element :: rest =>
      if String.eqb element needle then true else contains rest needle
  end.

(** The loop of [matchValues]: [i] ranges over the indices of [a] ([todo]
    is [a[i:]]); [b[i]] panics when [i] is not an index of [b]. *)
Fixpoint matchValues_loop (b : list string) (i : nat) (todo : list string)
  : exec bool :=
  match todo with
  | [] => Ret true
  | ai :: rest =>
      match nth_error b i with
      | None => Panic (IndexOutOfRange (Z.of_nat i) (len b))
      | Some bi =>
          if negb (String.eqb bi ai) then Ret false
          else matchValues_loop b (S i) rest
      end
  end.

Definition matchValues (a b : list string) : exec bool :=
  matchValues_loop b 0 a.

(** [values]: the cell values of one gherkin row. *)
Definition values (row : TableRow) : list string :=
  map Value (Cells row).

(** [rowValues]: the cell values of several gherkin rows. *)
Definition rowValues (rs : list TableRow) : list (list string) :=
  map values rs.

(** ** Validation and construction *)

(** First loop of [validateFields]: every required field is in [fs]. *)
Fixpoint requiredLoop (fs : list string) (required : list string)
  : option error :=
  match required with
  | [] => None
  | field :: rest =>
      if negb (contains fs field) then Some (ErrMissingField field)
      else requiredLoop fs rest
  end.

(** Second loop of [validateFields]: every field is in [allowedFields]. *)
Fixpoint allowedLoop (allowedFields : list string) (fs : list string)
  : option error :=
  match fs with
  | [] => None
  | field :: rest =>
      if negb (contains allowedFields field)
      then Some (ErrAdditionalField field allowedFields)
      else allowedLoop allowedFields rest
  end.

(** [validateFields] on values: [allowedFields] holds the optional names
    followed by the required ones.  That the [append] producing it may
    write into the array of [OptionalFields] is in [Slices.validateFields]
    below; the two agree when that write is apart from the fields, the
    rows and the required list. *)
Definition validateFields (t : DataTable) : option error :=
  match options t with
  | None => None
  | Some o =>
      match requiredLoop (fields t) (RequiredFields o) with
      | Some err => Some err
      | None =>
          if len (OptionalFields o) =? 0 then None
          else
            let allowedFields := OptionalFields o ++ RequiredFields o in
            allowedLoop allowedFields (fields t)
      end
  end.

(** The loop of [NewWithOptions] over the rows; [n] is [len(fields)]. *)
Fixpoint rowLengthLoop (n : Z) (rs : list (list string)) : option error :=
  match rs with
  | [] => None
  | row :: rest =>
      if negb (len row =? n) then Some (ErrRowLength n (len row))
      else rowLengthLoop n rest
  end.

(** [NewWithOptions] returns Go's pair of a table pointer and an error. *)
Definition NewWithOptions (opts : option Options) (fs : list string)
    (rs : list (list string)) : option DataTable * option error :=
  match rowLengthLoop (len fs) rs with
  | Some err => (None, Some err)
  | None =>
      let dt := mkDataTable fs rs opts in
      match validateFields dt with
      | Some err => (None, Some err)
      | None => (Some dt, None)
      end
  end.

Definition New (fs : list string) (rs : list (list string))
  : option DataTable * option error :=
  NewWithOptions None fs rs.

(** [dt.Rows[0]] below is evaluated only when [len(dt.Rows) >= 2], so the
    default of [nth] is never used. *)
Definition FromGherkinWithOptions (opts : option Options)
    (dt : GherkinDataTable) : option DataTable * option error :=
  if len (Rows dt) <? 2 then (None, Some ErrTooFewRows)
  else
    NewWithOptions opts
      (values (nth 0 (Rows dt) (mkTableRow [])))
      (rowValues (skipn 1 (Rows dt))).

Definition FromGherkin (dt : GherkinDataTable)
  : option DataTable * option error :=
  FromGherkinWithOptions None dt.

(** ** Copy *)

(** [copier.Copy(&to, &from)] of the library github.com/jinzhu/copier, on
    two slices of one element type: afterwards [to] holds the elements of
    [from].  Whether [to] then shares storage with [from] is the library's
    business and is not modelled. *)
Definition copier_Copy {A : Type} (to from : list A) : list A := from.

(** [Copy] fills [fields] and [rows] only; the [options] field of the new
    struct keeps its zero value, [nil]. *)
Definition Copy (t : DataTable) : DataTable :=
  let c :=
    mkDataTable (repeat EmptyString (length (fields t)))
                (repeat [] (length (rows t)))
                None in
  mkDataTable (copier_Copy (fields c) (fields t))
              (copier_Copy (rows c) (rows t))
              (options c).

(** ** Row search and mutation *)

(** The loop of [FindRow]; [i] is the index of the head of [rs]. *)
Fixpoint FindRow_loop (row : list string) (i : Z) (rs : list (list string))
  : exec Z :=
  match rs with
  | [] => Ret (-1)
  | r :: rest =>
      match matchValues r row with
      | Panic p => Panic p
      | Ret true => Ret i
      | Ret false => FindRow_loop row (i + 1) rest
      end
  end.

Definition FindRow (t : DataTable) (row : list string) : exec Z :=
  FindRow_loop row 0 (rows t).

(** [RemoveRow]: [t.rows = append(t.rows[:index], t.rows[index+1:]...)].
    [t.rows[:index]] needs [0 <= index <= cap(t.rows)] and
    [t.rows[index+1:]] needs [0 <= index+1 <= len(t.rows)]; as
    [len <= cap], both hold exactly when [0 <= index < len(t.rows)], and
    otherwise one of the two slice expressions panics with the runtime's
    slice-bounds error before [append] runs or [t.rows] is assigned. *)
Definition RemoveRow (t : DataTable) (index : Z) : exec unit * DataTable :=
  if (0 <=? index) && (index <? len (rows t)) then
    (Ret tt,
     mkDataTable (fields t)
                 (firstn (Z.to_nat index) (rows t)
                    ++ skipn (Z.to_nat (index + 1)) (rows t))
                 (options t))
  else (Panic SliceBoundsOutOfRange, t).

Definition AppendRow (t : DataTable) (row : list string)
  : option error * DataTable :=
  if negb (len row =? len (fields t)) then
    (Some (ErrRowLength (len (fields t)) (len row)), t)
  else
    (None, mkDataTable (fields t) (rows t ++ [row]) (options t)).

Definition Len (t : DataTable) : Z := len (rows t).

Definition Fields (t : DataTable) : list string := fields t.

Definition RowValues (t : DataTable) : list (list string) := rows t.

(** ** The specification's reading of [FindRow] and [RemoveRow]

    These two follow the words of the specification, not the code; they
    are what the code is compared with below. *)

(** Pairwise equality "using the shorter of the two lengths as the
    comparison bound": positions beyond the shorter row are ignored. *)
Fixpoint spec_matchRow (r candidate : list string) : bool :=
  match r, candidate with
  | x :: r', y :: candidate' => String.eqb x y && spec_matchRow r' candidate'
  | _, _ => true
  end.

(** Index of the first row matching in that sense, [-1] when none does. *)
Fixpoint spec_findRow_from (i : Z) (rs : list (list string))
    (candidate : list string) : Z :=
  match rs with
  | [] => -1
  | r :: rest =>
      if spec_matchRow r candidate then i
      else spec_findRow_from (i + 1) rest candidate
  end.

Definition spec_findRow (t : DataTable) (candidate : list string) : Z :=
  spec_findRow_from 0 (rows t) candidate.

(** What the specification lets a caller of [removeRow] observe: the table
    with the row removed, or a reported bounds error. *)
Inductive spec_removal : Type :=
| Removed (t : DataTable)
| BoundsError.

Definition spec_removeRow (t : DataTable) (index : Z) : spec_removal :=
  if (0 <=? index) && (index <? len (rows t)) then
    Removed (mkDataTable (fields t)
               (firstn (Z.to_nat index) (rows t)
                  ++ skipn (Z.to_nat (index + 1)) (rows t))
               (options t))
  else BoundsError.

(** A run of [RemoveRow] meets the specification's outcome when a normal
    return leaves the specified table; a runtime panic is not a reported
    bounds error, and a normal return is not one either. *)
Definition meets_spec_removal (run : exec unit * DataTable)
    (s : spec_removal) : Prop :=
  match run, s with
  | (Ret _, t'), Removed t'' => t' = t''
  | _, _ => False
  end.

(** ** Predicates used in the statements *)

(** [r] agrees with [candidate] at every position of [r]. *)
Definition agrees (r candidate : list string) : Prop :=
  forall k x, nth_error r k = Some x -> nth_error candidate k = Some x.

(** The table invariant: every row is as long as the field list. *)
Definition row_lengths_ok (t : DataTable) : Prop :=
  Forall (fun row => len row = len (fields t)) (rows t).

(** [f] is the first element of [l] that is not in [s]. *)
Definition first_outside (l s : list string) (f : string) : Prop :=
  exists pre post,
    l = pre ++ f :: post /\ Forall (fun x => In x s) pre /\ ~ In f s.

(** [row] is the first row of [rs] whose length is not [n]. *)
Definition first_bad_row (n : Z) (rs : list (list string))
    (row : list string) : Prop :=
  exists pre post,
    rs = pre ++ row :: post /\ Forall (fun r => len r = n) pre /\
    len row <> n.

(** ** Sample tables, after the package's tests *)

Definition sample_fields : list string := ["one"; "two"; "three"].

Definition sample_rows : list (list string) :=
  [["1"; "2"; "3"]; ["4"; "5"; "6"]; ["7"; "8"; "9"]].

(** The table [New(fields, rows...)] of [testData] returns. *)
Definition sample_table : DataTable :=
  mkDataTable sample_fields sample_rows None.

(** The gherkin table the tests build from the same data. *)
Definition sample_gherkin : GherkinDataTable :=
  mkGherkinDataTable
    (map (fun r => mkTableRow (map mkTableCell r))
         (sample_fields :: sample_rows)).

(** "required and optional fields" of [TestNewWithOptions]. *)
Definition sample_options : Options :=
  mkOptions ["tag"] ["name"; "value"].

Definition sample_schema_table : DataTable :=
  mkDataTable ["name"; "value"; "tag"] [["foo"; "bar"; "baz"]]
              (Some sample_options).

(** A table with no fields and two (empty) rows. *)
Definition sample_empty_rows : DataTable := mkDataTable [] [[]; []] None.

(** ** The map view of the rows *)

(** Inner loop of [Rows]: [j] ranges over the indices of the fields
    ([todo] is [t.fields[j:]]); [m[field] = row[j]] panics when [j] is not
    an index of [row]. *)
Fixpoint Rows_fields_loop (row : list string) (j : nat)
    (todo : list string) (m : gmap string string)
  : exec (gmap string string) :=
  match todo with
  | [] => Ret m
  | field :: rest =>
      match nth_error row j with
      | None => Panic (IndexOutOfRange (Z.of_nat j) (len row))
      | Some v => Rows_fields_loop row (S j) rest (<[field := v]> m)
      end
  end.

(** Outer loop of [Rows]: one fresh map per row, stored at the row's
    index of the result. *)
Fixpoint Rows_rows_loop (fs : list string) (todo : list (list string))
  : exec (list (gmap string string)) :=
  match todo with
  | [] => Ret []
  | row :: rest =>
      match Rows_fields_loop row 0 fs ∅ with
      | Panic p => Panic p
      | Ret m =>
          match Rows_rows_loop fs rest with
          | Panic p => Panic p
          | Ret s => Ret (m :: s)
          end
      end
  end.

Definition DataTable_Rows (t : DataTable)
  : exec (list (gmap string string)) :=
  Rows_rows_loop (fields t) (rows t).

(** ** The table builder of the package's tests *)

(** [buildTable]: a gherkin table with one row per element of [src] and
    one cell per string. *)
Definition buildTable (src : list (list string)) : GherkinDataTable :=
  mkGherkinDataTable
    (map (fun row => mkTableRow (map (fun value => mkTableCell value) row))
         src).

(** ** Slices with their storage *)

Module Slices.

(** A slice value: the array it points into, the offset of its first
    element in that array, its length and its capacity. *)
Record slice : Type := mkSlice {
  arr : nat;
  off : nat;
  slen : nat;
  scap : nat
}.

(** The nil slice. *)
Definition nil_slice : slice := mkSlice 0 0 0 0.

(** Arrays with elements of type [A]: array [n] is entry [n] of the list,
    and allocation adds an entry at the end. *)
Definition store (A : Type) : Type := list (list A).

Section Arrays.
Context {A : Type}.

Definition array_at (m : store A) (n : nat) : list A := nth n m [].

(** The elements of the slice [s]: [s[0]], ..., [s[len(s)-1]]. *)
Definition elems (m : store A) (s : slice) : list A :=
  firstn (slen s) (skipn (off s) (array_at m (arr s))).

(** The array [a] with [xs] written from position [pos] on. *)
Definition write_at (a : list A) (pos : nat) (xs : list A) : list A :=
  firstn pos a ++ xs ++ skipn (pos + length xs) a.

(** The builtin [append(s, xs...)], [xs] already read.  When
    [len(s) + len(xs) <= cap(s)] the values are written after the
    elements of [s] into the array [s] points into, and the result is
    [s] made longer.  Otherwise a new array receives the elements of [s]
    and [xs]; how much capacity it has beyond them is the runtime's
    choice, [spare (cap s) (len s + len xs)] here, filled with the zero
    value of the element type. *)
Definition append (zero : A) (spare : nat -> nat -> nat) (m : store A)
    (s : slice) (xs : list A) : slice * store A :=
  let n := (slen s + length xs)%nat in
  if (n <=? scap s)%nat then
    (mkSlice (arr s) (off s) n (scap s),
     <[arr s := write_at (array_at m (arr s)) (off s + slen s) xs]> m)
  else
    let extra := spare (scap s) n in
    (mkSlice (length m) 0 n (n + extra),
     m ++ [elems m s ++ xs ++ repeat zero extra]).

(** The slice expression [s[lo:hi]]: it needs [0 <= lo <= hi <= cap(s)]
    and panics otherwise. *)
Definition slice_expr (s : slice) (lo hi : Z) : exec slice :=
  if (0 <=? lo) && (lo <=? hi) && (hi <=? Z.of_nat (scap s)) then
    Ret (mkSlice (arr s) (off s + Z.to_nat lo) (Z.to_nat (hi - lo))
                 (scap s - Z.to_nat lo))
  else Panic SliceBoundsOutOfRange.

(** [s] lies inside its array. *)
Definition slice_ok (m : store A) (s : slice) : Prop :=
  (slen s <= scap s)%nat /\
  (off s + scap s <= length (array_at m (arr s)))%nat.
End Arrays.

(** Appending [k] values to [s] writes none of the elements of [u]:
    there is nothing to write, or the values do not fit into the capacity
    of [s] and go to a new array, or [u] points into another array, or
    the elements of [u] end before, or begin after, the [k] positions that
    follow the elements of [s]. *)
Definition apart (s : slice) (k : nat) (u : slice) : Prop :=
  k = 0%nat
  \/ (scap s < slen s + k)%nat
  \/ arr u <> arr s
  \/ (off u + slen u <= off s + slen s)%nat
  \/ (off s + slen s + k <= off u)%nat.

(** The memory the package works on: arrays of strings (fields, cells,
    option lists) and arrays of rows (each row a slice of strings). *)
Record heap : Type := mkHeap {
  cells : store string;
  rowArrays : store slice
}.

Record Options : Type := mkOptions {
  OptionalFields : slice;
  RequiredFields : slice
}.

Record DataTable : Type := mkDataTable {
  fields : slice;
  rows : slice;
  options : option Options
}.

(** [validateFields] on slices.  The two loops read the memory as it is
    when they run; between them,
    [append(t.options.OptionalFields, t.options.RequiredFields...)] may
    write into the array of [OptionalFields]. *)
Definition validateFields (spare : nat -> nat -> nat) (h : heap)
    (t : DataTable) : option error * heap :=
  match options t with
  | None => (None, h)
  | Some o =>
      match requiredLoop (elems (cells h) (fields t))
                         (elems (cells h) (RequiredFields o)) with
      | Some err => (Some err, h)
      | None =>
          if Z.of_nat (slen (OptionalFields o)) =? 0 then (None, h)
          else
            let '(allowedFields, cells') :=
              append EmptyString spare (cells h) (OptionalFields o)
                     (elems (cells h) (RequiredFields o)) in
            (allowedLoop (elems cells' allowedFields)
                         (elems cells' (fields t)),
             mkHeap cells' (rowArrays h))
      end
  end.

(** The loop of [NewWithOptions] over the row slices; [n] is
    [len(fields)]. *)
Fixpoint rowLengthLoop (n : nat) (rs : list slice) : option error :=
  match rs with
  | [] => None
  | row :: rest =>
      if negb (slen row =? n)%nat
      then Some (ErrRowLength (Z.of_nat n) (Z.of_nat (slen row)))
      else rowLengthLoop n rest
  end.

(** [NewWithOptions]: the table keeps the slices it is given. *)
Definition NewWithOptions (spare : nat -> nat -> nat) (h : heap)
    (opts : option Options) (fs : slice) (rs : slice)
  : (option DataTable * option error) * heap :=
  match rowLengthLoop (slen fs) (elems (rowArrays h) rs) with
  | Some err => ((None, Some err), h)
  | None =>
      let dt := mkDataTable fs rs opts in
      match validateFields spare h dt with
      | (Some err, h') => ((None, Some err), h')
      | (None, h') => ((Some dt, None), h')
      end
  end.

Definition New (spare : nat -> nat -> nat) (h : heap) (fs : slice)
    (rs : slice) : (option DataTable * option error) * heap :=
  NewWithOptions spare h None fs rs.

(** [AppendRow]: [t.rows = append(t.rows, row)]. *)
Definition AppendRow (spare : nat -> nat -> nat) (h : heap)
    (t : DataTable) (row : slice) : (option error * DataTable) * heap :=
  if negb (slen row =? slen (fields t))%nat then
    ((Some (ErrRowLength (Z.of_nat (slen (fields t))) (Z.of_nat (slen row))),
      t), h)
  else
    let '(rows', rowArrays') :=
      append nil_slice spare (rowArrays h) (rows t) [row] in
    ((None, mkDataTable (fields t) rows' (options t)),
     mkHeap (cells h) rowArrays').

(** [RemoveRow]: [t.rows = append(t.rows[:index], t.rows[index+1:]...)];
    the two slice expressions are evaluated in this order. *)
Definition RemoveRow (spare : nat -> nat -> nat) (h : heap)
    (t : DataTable) (index : Z) : (exec unit * DataTable) * heap :=
  match slice_expr (rows t) 0 index with
  | Panic p => ((Panic p, t), h)
  | Ret head =>
      match slice_expr (rows t) (index + 1) (Z.of_nat (slen (rows t))) with
      | Panic p => ((Panic p, t), h)
      | Ret tail =>
          let '(rows', rowArrays') :=
            append nil_slice spare (rowArrays h) head
                   (elems (rowArrays h) tail) in
          ((Ret tt, mkDataTable (fields t) rows' (options t)),
           mkHeap (cells h) rowArrays')
      end
  end.

End Slices.

(** What a table holds, read out of the memory. *)
Definition view_options (h : Slices.heap) (o : Slices.Options) : Options :=
  mkOptions (Slices.elems (Slices.cells h) (Slices.OptionalFields o))
            (Slices.elems (Slices.cells h) (Slices.RequiredFields o)).

Definition view (h : Slices.heap) (t : Slices.DataTable) : DataTable :=
  mkDataTable
    (Slices.elems (Slices.cells h) (Slices.fields t))
    (map (Slices.elems (Slices.cells h))
         (Slices.elems (Slices.rowArrays h) (Slices.rows t)))
    (option_map (view_options h) (Slices.options t)).

(** The slices of a table lie inside their arrays. *)
Definition table_ok (h : Slices.heap) (t : Slices.DataTable) : Prop :=
  Slices.slice_ok (Slices.cells h) (Slices.fields t) /\
  Slices.slice_ok (Slices.rowArrays h) (Slices.rows t) /\
  Forall (Slices.slice_ok (Slices.cells h))
         (Slices.elems (Slices.rowArrays h) (Slices.rows t)).

(** The option lists lie inside their arrays, and the append of
    [validateFields] onto [OptionalFields] writes no element of the
    required list, of the fields or of a row. *)
Definition options_apart (h : Slices.heap) (t : Slices.DataTable) : Prop :=
  forall o, Slices.options t = Some o ->
    let k := Slices.slen (Slices.RequiredFields o) in
    Slices.slice_ok (Slices.cells h) (Slices.OptionalFields o) /\
    Slices.slice_ok (Slices.cells h) (Slices.RequiredFields o) /\
    Slices.apart (Slices.OptionalFields o) k (Slices.RequiredFields o) /\
    Slices.apart (Slices.OptionalFields o) k (Slices.fields t) /\
    Forall (Slices.apart (Slices.OptionalFields o) k)
           (Slices.elems (Slices.rowArrays h) (Slices.rows t)).

(** ** Two runs on shared storage *)

(** With [buf := []string{"a", "b"}], the call
    [NewWithOptions(&Options{OptionalFields: buf[:1],
    RequiredFields: []string{"a"}}, buf)]: array 0 is [buf], array 1 the
    required list. *)
Definition shared_fields_heap : Slices.heap :=
  Slices.mkHeap [["a"; "b"]; ["a"]] [].

Definition shared_fields_buf : Slices.slice := Slices.mkSlice 0 0 2 2.

Definition shared_fields_options : Slices.Options :=
  Slices.mkOptions (Slices.mkSlice 0 0 1 2) (Slices.mkSlice 1 0 1 1).

Definition shared_fields_run (spare : nat -> nat -> nat)
  : (option Slices.DataTable * option error) * Slices.heap :=
  Slices.NewWithOptions spare shared_fields_heap
    (Some shared_fields_options) shared_fields_buf Slices.nil_slice.

(** With [buf := make([][]string, 0, 4)], the calls
    [a, _ := New([]string{"x", "y"}, buf...)],
    [b, _ := New([]string{"z"}, buf...)],
    [a.AppendRow([]string{"1", "2"})], [b.AppendRow([]string{"3"})], in
    this order; the result is [None] if one of them returns an error.
    String arrays 0 to 3 are the two field lists and the two rows; row
    array 0 is [buf]. *)
Definition shared_rows_heap : Slices.heap :=
  Slices.mkHeap [["x"; "y"]; ["z"]; ["1"; "2"]; ["3"]]
                [repeat Slices.nil_slice 4].

Definition shared_rows_buf : Slices.slice := Slices.mkSlice 0 0 0 4.

Definition shared_rows_run (spare : nat -> nat -> nat)
  : option (Slices.DataTable * Slices.DataTable * Slices.heap) :=
  match Slices.New spare shared_rows_heap
                   (Slices.mkSlice 0 0 2 2) shared_rows_buf with
  | ((Some a, None), h1) =>
      match Slices.New spare h1 (Slices.mkSlice 1 0 1 1) shared_rows_buf with
      | ((Some b, None), h2) =>
          match Slices.AppendRow spare h2 a (Slices.mkSlice 2 0 2 2) with
          | ((None, a'), h3) =>
              match Slices.AppendRow spare h3 b (Slices.mkSlice 3 0 1 1) with
              | ((None, b'), h4) => Some (a', b', h4)
              | _ => None
              end
          | _ => None
          end
      | _ => None
      end
  | _ => None
  end.

(** A table with one row and room for a second, and a row to append. *)
Definition roomy_heap : Slices.heap :=
  Slices.mkHeap [["one"; "two"]; ["1"; "2"]; ["3"; "4"]]
                [[Slices.mkSlice 1 0 2 2; Slices.nil_slice]].

Definition roomy_table : Slices.DataTable :=
  Slices.mkDataTable (Slices.mkSlice 0 0 2 2) (Slices.mkSlice 0 0 1 2) None.

(** A schema whose optional list has spare capacity of its own: string
    arrays 0 to 3 are the fields, the optional list (one name, capacity
    three), the required list and a row; row array 0 holds that row. *)
Definition schema_heap : Slices.heap :=
  Slices.mkHeap [["name"; "value"; "tag"]; ["tag"; ""; ""];
                 ["name"; "value"]; ["foo"; "bar"; "baz"]]
                [[Slices.mkSlice 3 0 3 3]].

Definition schema_options : Slices.Options :=
  Slices.mkOptions (Slices.mkSlice 1 0 1 3) (Slices.mkSlice 2 0 2 2).

(** The same with a fourth field, outside the schema. *)
Definition schema_heap_unknown : Slices.heap :=
  Slices.mkHeap [["name"; "value"; "tag"; "unknown"]; ["tag"; ""; ""];
                 ["name"; "value"]; ["foo"; "bar"; "baz"; "qux"]]
                [[Slices.mkSlice 3 0 4 4]].

(** * Properties *)

(** ** Basic facts *)

Lemma len_nonneg {A : Type} (s : list A) : 0 <= len s.
Proof. unfold len. lia. Qed.

Lemma len_eq_iff {A B : Type} (s : list A) (s' : list B) :
  len s = len s' <-> length s = length s'.
Proof. unfold len. lia. Qed.

Lemma contains_In (haystack : list string) (needle : string) :
  contains haystack needle = true <-> In needle haystack.
Proof.
  induction haystack as [|element rest IH]; simpl.
  - split; [discriminate | tauto].
  - destruct (String.eqb element needle) eqn:E.
    + apply String.eqb_eq in E. tauto.
    + apply String.eqb_neq in E. rewrite IH. split; [tauto|].
      intros [H|H]; [contradiction | exact H].
Qed.

Lemma contains_false (haystack : list string) (needle : string) :
  contains haystack needle = false <-> ~ In needle haystack.
Proof.
  rewrite <- contains_In. destruct (contains haystack needle).
  - split; [discriminate | intros H; exfalso; apply H; reflexivity].
  - split; [discriminate | reflexivity].
Qed.

(** ** The package's tests, run on the model *)

Example TestFromGherkin :
  FromGherkin sample_gherkin = (Some sample_table, None).
Proof. reflexivity. Qed.

Example TestFromMalformedGherkin :
  FromGherkin (mkGherkinDataTable [mkTableRow [mkTableCell "foo"]])
  = (None, Some ErrTooFewRows).
Proof. reflexivity. Qed.

Example TestNewWithOptions_incorrect_row_length :
  NewWithOptions None ["name"; "value"] [["foo"]]
  = (None, Some (ErrRowLength 2 1)).
Proof. reflexivity. Qed.

Example TestNewWithOptions_required_and_additional :
  NewWithOptions (Some (mkOptions [] ["value"; "name"]))
                 ["name"; "value"; "additonal"] [["foo"; "bar"; "baz"]]
  = (Some (mkDataTable ["name"; "value"; "additonal"]
                       [["foo"; "bar"; "baz"]]
                       (Some (mkOptions [] ["value"; "name"]))), None).
Proof. reflexivity. Qed.

Example TestNewWithOptions_unknown_additional_field :
  NewWithOptions (Some sample_options)
                 ["name"; "value"; "tag"; "unknown"]
                 [["foo"; "bar"; "baz"; "qux"]]
  = (None, Some (ErrAdditionalField "unknown" ["tag"; "name"; "value"])).
Proof. reflexivity. Qed.

Example TestRowOperations :
  let t0 := sample_table in
  let t1 := snd (RemoveRow t0 1) in
  let t2 := snd (AppendRow t1 ["10"; "11"; "12"]) in
  FindRow t0 ["4"; "5"; "6"] = Ret 1 /\
  FindRow t1 ["4"; "5"; "6"] = Ret (-1) /\
  fst (AppendRow t1 ["10"; "11"; "12"]) = None /\
  FindRow t2 ["10"; "11"; "12"] = Ret 2.
Proof. repeat split. Qed.

Example TestCopy : Copy sample_table = sample_table.
Proof. reflexivity. Qed.

(** ** [matchValues] *)

(** When the candidate [b] covers the positions still to compare, the loop
    returns without a panic, and returns [true] exactly on agreement. *)
Lemma matchValues_loop_covered (todo b : list string) :
  forall i : nat,
    (i + length todo <= length b)%nat ->
    exists v, matchValues_loop b i todo = Ret v /\
      (v = true <->
       forall k x, nth_error todo k = Some x ->
                   nth_error b (i + k) = Some x).
Proof.
  induction todo as [|ai rest IH]; intros i Hi; simpl in *.
  - exists true. split; [reflexivity|]. split; [|reflexivity].
    intros _ k x H. destruct k; discriminate.
  - destruct (nth_error b i) as [bi|] eqn:Eb.
    2:{ apply nth_error_None in Eb. lia. }
    destruct (String.eqb bi ai) eqn:E; simpl.
    + apply String.eqb_eq in E. subst bi.
      destruct (IH (S i)) as [v [Hv Hiff]]; [lia|].
      exists v. split; [exact Hv|]. rewrite Hiff. split.
      * intros H [|k] x Hk; simpl in Hk.
        -- injection Hk as <-. rewrite Nat.add_0_r. exact Eb.
        -- replace (i + S k)%nat with (S i + k)%nat by lia. apply H, Hk.
      * intros H k x Hk.
        replace (S i + k)%nat with (i + S k)%nat by lia. apply H. exact Hk.
    + apply String.eqb_neq in E. exists false. split; [reflexivity|].
      split; [discriminate|]. intros H. exfalso. apply E.
      specialize (H 0%nat ai eq_refl). rewrite Nat.add_0_r in H. congruence.
Qed.

Lemma matchValues_covered (a b : list string) :
  (length a <= length b)%nat ->
  exists v, matchValues a b = Ret v /\ (v = true <-> agrees a b).
Proof.
  intros H. destruct (matchValues_loop_covered a b 0%nat H) as [v [Hv Hiff]].
  exists v. split; [exact Hv|]. exact Hiff.
Qed.

(** An empty table row matches whatever the candidate is. *)
Lemma matchValues_nil (b : list string) : matchValues [] b = Ret true.
Proof. reflexivity. Qed.

(** The loop panics when the candidate ends before a disagreement shows. *)
Lemma matchValues_loop_short (todo b : list string) :
  forall i : nat,
    (length b < i + length todo)%nat ->
    (i <= length b)%nat ->
    (forall k x, (i + k < length b)%nat -> nth_error todo k = Some x ->
                 nth_error b (i + k) = Some x) ->
    matchValues_loop b i todo
      = Panic (IndexOutOfRange (len b) (len b)).
Proof.
  induction todo as [|ai rest IH]; intros i Hlt Hle Hag; simpl in *.
  - lia.
  - destruct (nth_error b i) as [bi|] eqn:Eb.
    + assert (Hi : (i < length b)%nat)
        by (apply nth_error_Some; congruence).
      assert (Hbi : nth_error b (i + 0) = Some ai)
        by (apply Hag; [lia | reflexivity]).
      rewrite Nat.add_0_r in Hbi.
      assert (bi = ai) by congruence. subst bi.
      rewrite String.eqb_refl. simpl. apply IH; [lia | lia |].
      intros k x Hk Hx.
      replace (S i + k)%nat with (i + S k)%nat in * by lia.
      apply Hag; [exact Hk | exact Hx].
    + apply nth_error_None in Eb.
      assert (i = length b) by lia. subst i. reflexivity.
Qed.

(** A candidate shorter than the table row that agrees with it as far as
    it goes makes [matchValues] panic at the candidate's length. *)
Lemma matchValues_short_candidate (a b : list string) :
  (length b < length a)%nat ->
  (forall k x, (k < length b)%nat -> nth_error a k = Some x ->
               nth_error b k = Some x) ->
  matchValues a b = Panic (IndexOutOfRange (len b) (len b)).
Proof.
  intros Hlt Hag. unfold matchValues.
  apply matchValues_loop_short; [lia | lia | exact Hag].
Qed.

(** ** [FindRow] *)

Lemma FindRow_loop_covered (candidate : list string)
    (rs : list (list string)) :
  forall i0 : Z,
    Forall (fun r => (length r <= length candidate)%nat) rs ->
    (exists k r,
        FindRow_loop candidate i0 rs = Ret (i0 + Z.of_nat k) /\
        nth_error rs k = Some r /\
        agrees r candidate /\
        forall j r', (j < k)%nat -> nth_error rs j = Some r' ->
                     ~ agrees r' candidate)
    \/ (FindRow_loop candidate i0 rs = Ret (-1) /\
        forall r, In r rs -> ~ agrees r candidate).
Proof.
  induction rs as [|r rest IH]; intros i0 Hall; simpl.
  - right. split; [reflexivity | intros r []].
  - inversion Hall as [|? ? Hr Hrest]; subst.
    destruct (matchValues_covered r candidate Hr) as [v [Hv Hiff]].
    rewrite Hv. destruct v.
    + left. exists 0%nat, r. rewrite Z.add_0_r.
      repeat split; [apply Hiff; reflexivity | intros j r' Hj; lia].
    + assert (Hno : ~ agrees r candidate)
        by (intros H; apply Hiff in H; discriminate).
      destruct (IH (i0 + 1) Hrest) as [[k [r1 [Hf [Hn [Ha Hmin]]]]]|[Hf Hnone]].
      * left. exists (S k), r1. repeat split.
        -- rewrite Hf. f_equal. lia.
        -- exact Hn.
        -- exact Ha.
        -- intros [|j] r' Hj Hnth; simpl in Hnth.
           ++ injection Hnth as <-. exact Hno.
           ++ apply (Hmin j); [lia | exact Hnth].
      * right. split; [exact Hf|].
        intros r' [<-|Hin]; [exact Hno | apply Hnone, Hin].
Qed.

(** For every table and every candidate row at least as long as each row
    of the table, [FindRow] scans the rows in order and
    returns the index of the first row whose cells equal the candidate's
    cells at every position of that table row (cells of the candidate
    beyond the row's length are ignored); it returns [-1] when no row
    matches, and the smallest matching index wins. *)
Theorem FindRow_first_match (t : DataTable) (candidate : list string)
    (Hcover : Forall (fun r => (length r <= length candidate)%nat) (rows t)) :
  (exists k r,
      FindRow t candidate = Ret (Z.of_nat k) /\
      nth_error (rows t) k = Some r /\
      agrees r candidate /\
      forall j r', (j < k)%nat -> nth_error (rows t) j = Some r' ->
                   ~ agrees r' candidate)
  \/ (FindRow t candidate = Ret (-1) /\
      forall r, In r (rows t) -> ~ agrees r candidate).
Proof.
  unfold FindRow.
  destruct (FindRow_loop_covered candidate (rows t) 0 Hcover)
    as [[k [r H]]|H].
  - left. exists k, r. rewrite Z.add_0_l in H. exact H.
  - right. exact H.
Qed.

(** On candidates that cover the rows, the code and the specification's
    reading of the search coincide. *)
Lemma spec_matchRow_covered (r candidate : list string) :
  (length r <= length candidate)%nat ->
  matchValues_loop candidate 0 r = Ret (spec_matchRow r candidate).
Proof.
  intros H.
  assert (G : forall todo pre c,
             (length todo <= length c)%nat ->
             matchValues_loop (pre ++ c) (length pre) todo
             = Ret (spec_matchRow todo c)).
  { clear. induction todo as [|x todo IH]; intros pre c Hc; simpl.
    - reflexivity.
    - destruct c as [|y c]; simpl in Hc; [lia|].
      rewrite nth_error_app2 by lia. rewrite Nat.sub_diag. simpl.
      rewrite (String.eqb_sym y x).
      destruct (String.eqb x y); simpl; [|reflexivity].
      specialize (IH (pre ++ [y]) c).
      rewrite <- app_assoc, length_app, Nat.add_1_r in IH. simpl in IH.
      apply IH. lia. }
  apply (G r [] candidate H).
Qed.

Lemma FindRow_meets_spec_when_covered (t : DataTable)
    (candidate : list string) :
  Forall (fun r => (length r <= length candidate)%nat) (rows t) ->
  FindRow t candidate = Ret (spec_findRow t candidate).
Proof.
  unfold FindRow, spec_findRow. generalize 0.
  induction (rows t) as [|r rest IH]; intros i Hall; simpl.
  - reflexivity.
  - inversion Hall as [|? ? Hr Hrest]; subst.
    unfold matchValues. rewrite (spec_matchRow_covered r candidate Hr).
    destruct (spec_matchRow r candidate); [reflexivity | apply IH, Hrest].
Qed.

(** C10: on a table with at least one row whose rows are all empty,
    [FindRow] returns 0 for every candidate. *)
Theorem FindRow_all_rows_empty (t : DataTable) (candidate : list string)
    (Hsome : rows t <> [])
    (Hempty : Forall (fun r => r = []) (rows t)) :
  FindRow t candidate = Ret 0.
Proof.
  unfold FindRow. destruct (rows t) as [|r rest]; [contradiction|].
  inversion Hempty as [|? ? Hr _]; subst. reflexivity.
Qed.

Lemma FindRow_first_match_witness :
  Forall (fun r => (length r <= length ["4"; "5"; "6"])%nat)
         (rows sample_table) /\
  ((exists k r,
       FindRow sample_table ["4"; "5"; "6"] = Ret (Z.of_nat k) /\
       nth_error (rows sample_table) k = Some r /\
       agrees r ["4"; "5"; "6"] /\
       forall j r', (j < k)%nat -> nth_error (rows sample_table) j = Some r' ->
                    ~ agrees r' ["4"; "5"; "6"])
   \/ (FindRow sample_table ["4"; "5"; "6"] = Ret (-1) /\
       forall r, In r (rows sample_table) -> ~ agrees r ["4"; "5"; "6"])).
Proof.
  assert (H : Forall (fun r => (length r <= length ["4"; "5"; "6"])%nat)
                     (rows sample_table))
    by (repeat constructor).
  split; [exact H | exact (FindRow_first_match sample_table _ H)].
Defined.

(** C1 fails on a candidate that ends before a difference shows: against
    the candidate ["4"], one cell long, the
    second row of the sample table agrees on that cell, the loop of
    [matchValues] goes on to index 1 of the candidate, and the call
    panics, where the specification's search answers 1. *)
Lemma FindRow_short_candidate_panics :
  FindRow sample_table ["4"] = Panic (IndexOutOfRange 1 1) /\
  spec_findRow sample_table ["4"] = 1 /\
  FindRow sample_table ["4"] <> Ret (spec_findRow sample_table ["4"]).
Proof.
  split; [reflexivity|]. split; [reflexivity|]. discriminate.
Qed.

Lemma FindRow_all_rows_empty_witness :
  rows sample_empty_rows <> [] /\
  Forall (fun r => r = []) (rows sample_empty_rows) /\
  FindRow sample_empty_rows ["x"; "y"] = Ret 0.
Proof.
  assert (H1 : rows sample_empty_rows <> []) by discriminate.
  assert (H2 : Forall (fun r : list string => r = [])
                      (rows sample_empty_rows))
    by (repeat constructor).
  split; [exact H1|]. split; [exact H2|].
  exact (FindRow_all_rows_empty sample_empty_rows ["x"; "y"] H1 H2).
Defined.

(** ** Schema validation *)

Lemma requiredLoop_None (fs required : list string) :
  requiredLoop fs required = None <-> Forall (fun f => In f fs) required.
Proof.
  induction required as [|field rest IH]; simpl.
  - split; [constructor | reflexivity].
  - destruct (contains fs field) eqn:E; simpl.
    + apply contains_In in E. rewrite IH. split.
      * intros H. constructor; assumption.
      * intros H. inversion H; assumption.
    + apply contains_false in E. split; [discriminate|].
      intros H. inversion H; contradiction.
Qed.

Lemma requiredLoop_first (fs required : list string) (f : string) :
  first_outside required fs f ->
  requiredLoop fs required = Some (ErrMissingField f).
Proof.
  intros [pre [post [-> [Hpre Hf]]]].
  induction pre as [|x pre IH]; simpl.
  - apply contains_false in Hf. rewrite Hf. reflexivity.
  - inversion Hpre as [|? ? Hx Hpre']; subst.
    apply contains_In in Hx. rewrite Hx. simpl. apply IH, Hpre'.
Qed.

Lemma allowedLoop_None (allowedFields fs : list string) :
  allowedLoop allowedFields fs = None
  <-> Forall (fun f => In f allowedFields) fs.
Proof.
  induction fs as [|field rest IH]; simpl.
  - split; [constructor | reflexivity].
  - destruct (contains allowedFields field) eqn:E; simpl.
    + apply contains_In in E. rewrite IH. split.
      * intros H. constructor; assumption.
      * intros H. inversion H; assumption.
    + apply contains_false in E. split; [discriminate|].
      intros H. inversion H; contradiction.
Qed.

Lemma allowedLoop_first (allowedFields fs : list string) (f : string) :
  first_outside fs allowedFields f ->
  allowedLoop allowedFields fs = Some (ErrAdditionalField f allowedFields).
Proof.
  intros [pre [post [-> [Hpre Hf]]]].
  induction pre as [|x pre IH]; simpl.
  - apply contains_false in Hf. rewrite Hf. reflexivity.
  - inversion Hpre as [|? ? Hx Hpre']; subst.
    apply contains_In in Hx. rewrite Hx. simpl. apply IH, Hpre'.
Qed.

Lemma len_zero_iff {A : Type} (s : list A) : (len s =? 0) = true <-> s = [].
Proof.
  destruct s as [|x s].
  - split; reflexivity.
  - split; [|discriminate]. intros H. apply Z.eqb_eq in H.
    unfold len in H. simpl length in H. lia.
Qed.

(** ** The row-length check of construction *)

Lemma rowLengthLoop_None (n : Z) (rs : list (list string)) :
  rowLengthLoop n rs = None <-> Forall (fun r => len r = n) rs.
Proof.
  induction rs as [|row rest IH]; simpl.
  - split; [constructor | reflexivity].
  - destruct (len row =? n) eqn:E; simpl.
    + apply Z.eqb_eq in E. rewrite IH. split.
      * intros H. constructor; assumption.
      * intros H. inversion H; assumption.
    + apply Z.eqb_neq in E. split; [discriminate|].
      intros H. inversion H; contradiction.
Qed.

Lemma rowLengthLoop_first (n : Z) (rs : list (list string))
    (row : list string) :
  first_bad_row n rs row ->
  rowLengthLoop n rs = Some (ErrRowLength n (len row)).
Proof.
  intros [pre [post [-> [Hpre Hrow]]]].
  induction pre as [|x pre IH]; simpl.
  - apply Z.eqb_neq in Hrow. rewrite Hrow. reflexivity.
  - inversion Hpre as [|? ? Hx Hpre']; subst.
    rewrite Z.eqb_refl. simpl. apply IH, Hpre'.
Qed.

(** A row of the wrong length anywhere means there is a first one. *)
Lemma first_bad_row_exists (n : Z) (rs : list (list string)) :
  ~ Forall (fun r => len r = n) rs -> exists row, first_bad_row n rs row.
Proof.
  induction rs as [|r rest IH]; intros H.
  - exfalso. apply H. constructor.
  - destruct (Z.eq_dec (len r) n) as [E|E].
    + destruct IH as [row [pre [post [-> [Hpre Hrow]]]]].
      { intros Hrest. apply H. constructor; assumption. }
      exists row, (r :: pre), post. repeat split.
      * constructor; assumption.
      * exact Hrow.
    + exists r, [], rest. repeat split; [constructor | exact E].
Qed.

(** ** Construction *)

(** Once every row has the length of the field list, the outcome of
    construction is that of [validateFields]. *)
Lemma NewWithOptions_rows_ok (opts : option Options) (fs : list string)
    (rs : list (list string)) :
  Forall (fun r => len r = len fs) rs ->
  NewWithOptions opts fs rs =
    match validateFields (mkDataTable fs rs opts) with
    | Some err => (None, Some err)
    | None => (Some (mkDataTable fs rs opts), None)
    end.
Proof.
  intros H. apply rowLengthLoop_None in H.
  unfold NewWithOptions. rewrite H. reflexivity.
Qed.

Lemma NewWithOptions_bad_row (opts : option Options) (fs : list string)
    (rs : list (list string)) (row : list string) :
  first_bad_row (len fs) rs row ->
  NewWithOptions opts fs rs
    = (None, Some (ErrRowLength (len fs) (len row))).
Proof.
  intros H. unfold NewWithOptions.
  rewrite (rowLengthLoop_first _ _ _ H). reflexivity.
Qed.

Lemma validateFields_missing (t : DataTable) (o : Options) (f : string) :
  options t = Some o ->
  first_outside (RequiredFields o) (fields t) f ->
  validateFields t = Some (ErrMissingField f).
Proof.
  intros Ho H. unfold validateFields. rewrite Ho.
  rewrite (requiredLoop_first _ _ _ H). reflexivity.
Qed.

Lemma validateFields_additional (t : DataTable) (o : Options) (f : string) :
  options t = Some o ->
  Forall (fun r => In r (fields t)) (RequiredFields o) ->
  OptionalFields o <> [] ->
  first_outside (fields t) (OptionalFields o ++ RequiredFields o) f ->
  validateFields t
    = Some (ErrAdditionalField f (OptionalFields o ++ RequiredFields o)).
Proof.
  intros Ho Hreq Hopt H. unfold validateFields. rewrite Ho.
  apply requiredLoop_None in Hreq. rewrite Hreq.
  destruct (len (OptionalFields o) =? 0) eqn:E.
  - apply len_zero_iff in E. contradiction.
  - apply allowedLoop_first, H.
Qed.

Lemma validateFields_closed_ok (t : DataTable) (o : Options) :
  options t = Some o ->
  Forall (fun r => In r (fields t)) (RequiredFields o) ->
  Forall (fun f => In f (OptionalFields o ++ RequiredFields o)) (fields t) ->
  validateFields t = None.
Proof.
  intros Ho Hreq Hall. unfold validateFields. rewrite Ho.
  apply requiredLoop_None in Hreq. rewrite Hreq.
  destruct (len (OptionalFields o) =? 0); [reflexivity|].
  apply allowedLoop_None, Hall.
Qed.

Lemma validateFields_open_ok (t : DataTable) (o : Options) :
  options t = Some o ->
  Forall (fun r => In r (fields t)) (RequiredFields o) ->
  OptionalFields o = [] ->
  validateFields t = None.
Proof.
  intros Ho Hreq Hopt. unfold validateFields. rewrite Ho.
  apply requiredLoop_None in Hreq. rewrite Hreq, Hopt. reflexivity.
Qed.

(** What a passed validation says about the fields. *)
Lemma validateFields_None_inv (t : DataTable) (o : Options) :
  options t = Some o ->
  validateFields t = None ->
  Forall (fun r => In r (fields t)) (RequiredFields o) /\
  (OptionalFields o <> [] ->
   Forall (fun f => In f (OptionalFields o ++ RequiredFields o)) (fields t)).
Proof.
  intros Ho H. unfold validateFields in H. rewrite Ho in H.
  destruct (requiredLoop (fields t) (RequiredFields o)) eqn:Er;
    [discriminate|].
  split; [apply requiredLoop_None, Er|]. intros Hopt.
  destruct (len (OptionalFields o) =? 0) eqn:E.
  - apply len_zero_iff in E. contradiction.
  - apply allowedLoop_None, H.
Qed.

(** On values: construction with a schema [o], on rows of the right length.
    (1) A required field absent from [fs] fails construction with the
    missing-field error naming it (the first absent one, in the order of
    [RequiredFields]); a successful construction has every required field
    in [fs] and, when [OptionalFields] is non-empty, every field in
    [OptionalFields ++ RequiredFields].  (2) With [OptionalFields]
    non-empty, the first field outside [OptionalFields ++ RequiredFields]
    fails construction with the additional-field error naming it and
    listing that allowed list, and construction succeeds when there is
    none.  (3) With [OptionalFields] empty no such check is made:
    construction succeeds as soon as the required fields are present,
    whatever other fields there are. *)
Theorem NewWithOptions_schema (o : Options) (fs : list string)
    (rs : list (list string))
    (Hrows : Forall (fun r => len r = len fs) rs) :
  let allowed := OptionalFields o ++ RequiredFields o in
  let built := mkDataTable fs rs (Some o) in
  (forall f, first_outside (RequiredFields o) fs f ->
     NewWithOptions (Some o) fs rs = (None, Some (ErrMissingField f)))
  /\ (forall t, NewWithOptions (Some o) fs rs = (Some t, None) ->
        Forall (fun r => In r fs) (RequiredFields o) /\
        (OptionalFields o <> [] -> Forall (fun f => In f allowed) fs))
  /\ (Forall (fun r => In r fs) (RequiredFields o) ->
      OptionalFields o <> [] ->
      (forall f, first_outside fs allowed f ->
         NewWithOptions (Some o) fs rs
           = (None, Some (ErrAdditionalField f allowed)))
      /\ (Forall (fun f => In f allowed) fs ->
          NewWithOptions (Some o) fs rs = (Some built, None)))
  /\ (Forall (fun r => In r fs) (RequiredFields o) ->
      OptionalFields o = [] ->
      NewWithOptions (Some o) fs rs = (Some built, None)).
Proof.
  intros allowed built.
  pose proof (NewWithOptions_rows_ok (Some o) fs rs Hrows) as Hnew.
  fold built in Hnew.
  split; [|split; [|split]].
  - intros f Hf. rewrite Hnew.
    rewrite (validateFields_missing built o f eq_refl Hf). reflexivity.
  - intros t Ht. rewrite Hnew in Ht.
    destruct (validateFields built) eqn:Ev; [discriminate|].
    apply (validateFields_None_inv built o eq_refl Ev).
  - intros Hreq Hopt. split.
    + intros f Hf. rewrite Hnew.
      rewrite (validateFields_additional built o f eq_refl Hreq Hopt Hf).
      reflexivity.
    + intros Hall. rewrite Hnew.
      rewrite (validateFields_closed_ok built o eq_refl Hreq Hall).
      reflexivity.
  - intros Hreq Hopt. rewrite Hnew.
    rewrite (validateFields_open_ok built o eq_refl Hreq Hopt). reflexivity.
Qed.

(** The "unknown field" case of the package's tests. *)
Lemma NewWithOptions_schema_witness :
  Forall (fun r => len r = len ["name"; "unknown"]) [["foo"; "baz"]] /\
  NewWithOptions (Some (mkOptions ["value"; "name"] []))
                 ["name"; "unknown"] [["foo"; "baz"]]
    = (None, Some (ErrAdditionalField "unknown" ["value"; "name"])).
Proof.
  assert (H : Forall (fun r => len r = len ["name"; "unknown"])
                     [["foo"; "baz"]])
    by (repeat constructor).
  split; [exact H|].
  destruct (NewWithOptions_schema (mkOptions ["value"; "name"] [])
              ["name"; "unknown"] [["foo"; "baz"]] H)
    as [_ [_ [Hclosed _]]].
  destruct (Hclosed (Forall_nil _)) as [Hfirst _]; [discriminate|].
  apply Hfirst. exists ["name"], []. split; [reflexivity|]. split.
  - constructor; [simpl; tauto | constructor].
  - simpl. intros [H0|[H0|[]]]; discriminate.
Defined.

(** C4: construction fails with the row-length error, carrying the field
    count and the length of the first row that differs from it, whenever
    some row's length differs, whatever the schema (the row check comes
    before any schema check); with rows of the right length, a missing
    required field is reported whatever else is wrong with the fields (the
    required check comes before the closure check); and every outcome is
    either a table with no error or exactly one error with no table. *)
Theorem NewWithOptions_check_order (opts : option Options)
    (fs : list string) (rs : list (list string)) :
  (forall row, first_bad_row (len fs) rs row ->
     NewWithOptions opts fs rs
       = (None, Some (ErrRowLength (len fs) (len row))))
  /\ (~ Forall (fun r => len r = len fs) rs ->
      exists row, In row rs /\ len row <> len fs /\
        NewWithOptions opts fs rs
          = (None, Some (ErrRowLength (len fs) (len row))))
  /\ (forall o f, opts = Some o ->
        Forall (fun r => len r = len fs) rs ->
        first_outside (RequiredFields o) fs f ->
        NewWithOptions opts fs rs = (None, Some (ErrMissingField f)))
  /\ ((exists t, NewWithOptions opts fs rs = (Some t, None))
      \/ (exists err, NewWithOptions opts fs rs = (None, Some err))).
Proof.
  split; [|split; [|split]].
  - intros row Hrow. apply NewWithOptions_bad_row, Hrow.
  - intros Hbad. destruct (first_bad_row_exists _ _ Hbad) as [row Hrow].
    exists row. destruct Hrow as [pre [post [Hrs [Hpre Hlen]]]].
    split; [rewrite Hrs; apply in_elt|]. split; [exact Hlen|].
    apply NewWithOptions_bad_row. exists pre, post. auto.
  - intros o f -> Hrows Hf.
    rewrite (NewWithOptions_rows_ok _ _ _ Hrows).
    rewrite (validateFields_missing (mkDataTable fs rs (Some o)) o f
               eq_refl Hf).
    reflexivity.
  - unfold NewWithOptions.
    destruct (rowLengthLoop (len fs) rs) as [err|].
    + right. exists err. reflexivity.
    + destruct (validateFields (mkDataTable fs rs opts)) as [err|].
      * right. exists err. reflexivity.
      * left. eexists. reflexivity.
Qed.

(** A short second row under a schema the fields violate as well: the row
    length is what is reported. *)
Lemma NewWithOptions_check_order_witness :
  NewWithOptions (Some (mkOptions ["tag"] ["name"; "value"]))
                 ["name"; "unknown"] [["foo"; "bar"]; ["baz"]]
    = (None, Some (ErrRowLength 2 1)).
Proof.
  destruct (NewWithOptions_check_order
              (Some (mkOptions ["tag"] ["name"; "value"]))
              ["name"; "unknown"] [["foo"; "bar"]; ["baz"]])
    as [Hfirst _].
  apply (Hfirst ["baz"]). exists [["foo"; "bar"]], []. split; [reflexivity|].
  split; [repeat constructor | discriminate].
Defined.

(** C8: without a schema, construction from rows that all have the length
    of the field list succeeds, and [Fields] and [RowValues] of the result
    are the supplied fields and rows, in order. *)
Theorem New_identity (fs : list string) (rs : list (list string))
    (Hrows : Forall (fun r => len r = len fs) rs) :
  exists t, New fs rs = (Some t, None) /\ Fields t = fs /\ RowValues t = rs.
Proof.
  exists (mkDataTable fs rs None). unfold New.
  rewrite (NewWithOptions_rows_ok None fs rs Hrows).
  repeat split.
Qed.

Lemma New_identity_witness :
  Forall (fun r => len r = len sample_fields) sample_rows /\
  exists t, New sample_fields sample_rows = (Some t, None) /\
            Fields t = sample_fields /\ RowValues t = sample_rows.
Proof.
  assert (H : Forall (fun r => len r = len sample_fields) sample_rows)
    by (repeat constructor).
  split; [exact H | exact (New_identity sample_fields sample_rows H)].
Defined.

(** ** Conversion from a gherkin table *)

(** C5: with fewer than two rows the conversion fails with the too-few-rows
    error; otherwise it is the constructor, under the same schema, applied
    to the cell values of the first row as fields and to the cell values
    of the remaining rows, in order, as rows. *)
Theorem FromGherkinWithOptions_delegates (opts : option Options)
    (g : GherkinDataTable) :
  (len (Rows g) < 2 ->
     FromGherkinWithOptions opts g = (None, Some ErrTooFewRows))
  /\ (forall header data,
        Rows g = header :: data -> data <> [] ->
        FromGherkinWithOptions opts g
          = NewWithOptions opts
              (map Value (Cells header))
              (map (fun r => map Value (Cells r)) data)).
Proof.
  unfold FromGherkinWithOptions. split.
  - intros H. apply Z.ltb_lt in H. rewrite H. reflexivity.
  - intros header data Hg Hdata. rewrite Hg.
    destruct data as [|d data]; [contradiction|].
    assert (E : (len (header :: d :: data) <? 2) = false).
    { apply Z.ltb_ge. unfold len. simpl length. lia. }
    rewrite E. reflexivity.
Qed.

(** [TestFromGherkin]: the sample data converts to the sample table. *)
Lemma FromGherkinWithOptions_delegates_witness :
  FromGherkinWithOptions None sample_gherkin = (Some sample_table, None).
Proof.
  destruct (FromGherkinWithOptions_delegates None sample_gherkin)
    as [_ H].
  rewrite (H _ _ eq_refl); [reflexivity | discriminate].
Defined.

(** ** Row mutation *)

(** Dropping position [n] of a list, as [RemoveRow] builds it. *)
Lemma drop_at_split {A : Type} (l : list A) (n : nat) :
  (n < length l)%nat ->
  exists pre x post,
    l = pre ++ x :: post /\ length pre = n /\
    firstn n l ++ skipn (S n) l = pre ++ post.
Proof.
  intros Hn.
  destruct (nth_error l n) as [x|] eqn:E.
  2:{ apply nth_error_None in E. lia. }
  destruct (nth_error_split l n E) as [pre [post [-> Hpre]]].
  exists pre, x, post. split; [reflexivity|]. split; [exact Hpre|].
  subst n. rewrite firstn_app, skipn_app, firstn_all, Nat.sub_diag.
  rewrite skipn_all2 by lia.
  replace (S (length pre) - length pre)%nat with 1%nat by lia.
  simpl. rewrite app_nil_r. reflexivity.
Qed.

Lemma RemoveRow_in_range (t : DataTable) (index : Z) :
  0 <= index < len (rows t) ->
  exists pre row post,
    rows t = pre ++ row :: post /\ len pre = index /\
    RemoveRow t index
      = (Ret tt, mkDataTable (fields t) (pre ++ post) (options t)).
Proof.
  intros [Hlo Hhi]. unfold RemoveRow.
  assert (E : (0 <=? index) && (index <? len (rows t)) = true).
  { apply andb_true_iff. split; [apply Z.leb_le | apply Z.ltb_lt]; lia. }
  rewrite E.
  replace (Z.to_nat (index + 1)) with (S (Z.to_nat index)) by lia.
  destruct (drop_at_split (rows t) (Z.to_nat index))
    as [pre [row [post [Hrows [Hpre Hdrop]]]]].
  { unfold len in Hhi. lia. }
  exists pre, row, post. split; [exact Hrows|]. split.
  - unfold len. lia.
  - rewrite Hdrop. reflexivity.
Qed.

Lemma RemoveRow_out_of_range (t : DataTable) (index : Z) :
  ~ (0 <= index < len (rows t)) ->
  RemoveRow t index = (Panic SliceBoundsOutOfRange, t).
Proof.
  intros H. unfold RemoveRow.
  destruct ((0 <=? index) && (index <? len (rows t))) eqn:E;
    [|reflexivity].
  apply andb_true_iff in E. destruct E as [E1 E2].
  apply Z.leb_le in E1. apply Z.ltb_lt in E2. lia.
Qed.

(** C6 (as amended): for an index in [0, len(rows)), [RemoveRow] removes
    exactly the row at that index: the rows before it and the rows after
    it stay, in order, the later ones one position to the left, and the
    row count drops by one.  For any other index the call ends in the Go
    runtime's slice-bounds panic (there is no check of its own and no
    error value), and the table is left as it was. *)
Theorem RemoveRow_behaviour (t : DataTable) (index : Z) :
  (0 <= index < len (rows t) ->
     exists pre row post,
       rows t = pre ++ row :: post /\ len pre = index /\
       RemoveRow t index
         = (Ret tt, mkDataTable (fields t) (pre ++ post) (options t)) /\
       Len (snd (RemoveRow t index)) = Len t - 1)
  /\ (~ (0 <= index < len (rows t)) ->
      RemoveRow t index = (Panic SliceBoundsOutOfRange, t)).
Proof.
  split.
  - intros H.
    destruct (RemoveRow_in_range t index H)
      as [pre [row [post [Hrows [Hpre Hrun]]]]].
    exists pre, row, post. repeat split; try assumption.
    rewrite Hrun. unfold Len, len. simpl. rewrite Hrows.
    rewrite !length_app. simpl. lia.
  - apply RemoveRow_out_of_range.
Qed.

(** Index 1 of the sample table (as in [TestRowOperations]), and index 3,
    one past its last row. *)
Lemma RemoveRow_behaviour_witness :
  (0 <= 1 < len (rows sample_table)) /\
  (exists pre row post,
      rows sample_table = pre ++ row :: post /\ len pre = 1 /\
      RemoveRow sample_table 1
        = (Ret tt, mkDataTable (fields sample_table) (pre ++ post)
                               (options sample_table)) /\
      Len (snd (RemoveRow sample_table 1)) = Len sample_table - 1) /\
  RemoveRow sample_table 3 = (Panic SliceBoundsOutOfRange, sample_table).
Proof.
  assert (Hin : 0 <= 1 < len (rows sample_table))
    by (unfold len; simpl; lia).
  assert (Hout : ~ (0 <= 3 < len (rows sample_table)))
    by (unfold len; simpl; lia).
  split; [exact Hin|]. split.
  - exact (proj1 (RemoveRow_behaviour sample_table 1) Hin).
  - exact (proj2 (RemoveRow_behaviour sample_table 3) Hout).
Defined.

(** C6 (as stated) fails: with index 3 on the three-row sample table the
    specification reports a bounds error, while the code panics in the
    runtime's slice operation; no bounds error is ever produced. *)
Lemma RemoveRow_no_bounds_error :
  spec_removeRow sample_table 3 = BoundsError /\
  RemoveRow sample_table 3 = (Panic SliceBoundsOutOfRange, sample_table) /\
  ~ meets_spec_removal (RemoveRow sample_table 3)
                       (spec_removeRow sample_table 3).
Proof.
  split; [reflexivity|]. split; [reflexivity|]. intros H. exact H.
Qed.

(** C9: a row whose length differs from the field count makes [AppendRow]
    return the row-length error and leaves the table as it was: same
    fields, same rows, same row count. *)
Theorem AppendRow_atomic_on_failure (t : DataTable) (row : list string)
    (Hlen : len row <> len (fields t)) :
  let t' := snd (AppendRow t row) in
  fst (AppendRow t row) = Some (ErrRowLength (len (fields t)) (len row)) /\
  t' = t /\ Fields t' = Fields t /\ RowValues t' = RowValues t /\
  Len t' = Len t.
Proof.
  unfold AppendRow. apply Z.eqb_neq in Hlen. rewrite Hlen. simpl.
  repeat split.
Qed.

Lemma AppendRow_atomic_on_failure_witness :
  len ["10"; "11"] <> len (fields sample_table) /\
  fst (AppendRow sample_table ["10"; "11"]) = Some (ErrRowLength 3 2) /\
  snd (AppendRow sample_table ["10"; "11"]) = sample_table.
Proof.
  assert (H : len ["10"; "11"] <> len (fields sample_table))
    by discriminate.
  split; [exact H|].
  destruct (AppendRow_atomic_on_failure sample_table ["10"; "11"] H)
    as [He [Ht _]].
  split; [exact He | exact Ht].
Defined.

(** ** The row-length invariant *)

Lemma NewWithOptions_success_inv (opts : option Options) (fs : list string)
    (rs : list (list string)) (t : DataTable) :
  NewWithOptions opts fs rs = (Some t, None) ->
  t = mkDataTable fs rs opts /\ Forall (fun r => len r = len fs) rs.
Proof.
  unfold NewWithOptions. intros H.
  destruct (rowLengthLoop (len fs) rs) eqn:E; [discriminate|].
  destruct (validateFields (mkDataTable fs rs opts)); [discriminate|].
  injection H as <-. split; [reflexivity | apply rowLengthLoop_None, E].
Qed.

Lemma Copy_fields_rows (t : DataTable) :
  fields (Copy t) = fields t /\ rows (Copy t) = rows t /\
  options (Copy t) = None.
Proof. repeat split. Qed.

Lemma AppendRow_fits (t : DataTable) (row : list string) :
  len row = len (fields t) ->
  AppendRow t row
    = (None, mkDataTable (fields t) (rows t ++ [row]) (options t)).
Proof.
  intros H. unfold AppendRow. apply Z.eqb_eq in H. rewrite H. reflexivity.
Qed.

Lemma AppendRow_rejects (t : DataTable) (row : list string) :
  len row <> len (fields t) ->
  AppendRow t row = (Some (ErrRowLength (len (fields t)) (len row)), t).
Proof.
  intros H. unfold AppendRow. apply Z.eqb_neq in H. rewrite H. reflexivity.
Qed.

Lemma AppendRow_preserves (t : DataTable) (row : list string) :
  row_lengths_ok t -> row_lengths_ok (snd (AppendRow t row)).
Proof.
  intros Hok. destruct (Z.eq_dec (len row) (len (fields t))) as [E|E].
  - rewrite (AppendRow_fits t row E). unfold row_lengths_ok. simpl.
    apply Forall_app. split; [exact Hok | constructor; [exact E | constructor]].
  - rewrite (AppendRow_rejects t row E). exact Hok.
Qed.

Lemma RemoveRow_preserves (t : DataTable) (index : Z) :
  row_lengths_ok t -> row_lengths_ok (snd (RemoveRow t index)).
Proof.
  intros Hok.
  destruct (Z_le_dec 0 index) as [Hlo|Hlo];
    [destruct (Z_lt_dec index (len (rows t))) as [Hhi|Hhi]|].
  - destruct (RemoveRow_in_range t index (conj Hlo Hhi))
      as [pre [row [post [Hrows [_ Hrun]]]]].
    rewrite Hrun. unfold row_lengths_ok in *. simpl.
    rewrite Hrows in Hok. apply Forall_app in Hok. destruct Hok as [Hp Hq].
    apply Forall_app. split; [exact Hp | inversion Hq; assumption].
  - rewrite RemoveRow_out_of_range by lia. exact Hok.
  - rewrite RemoveRow_out_of_range by lia. exact Hok.
Qed.

(** ** Copy *)

Lemma Copy_eq_iff (t : DataTable) : Copy t = t <-> options t = None.
Proof.
  destruct t as [fs rs opts]. unfold Copy, copier_Copy. simpl. split.
  - intros H. injection H as H. symmetry. exact H.
  - intros ->. reflexivity.
Qed.

(** C2 fails on a table built with a schema: [Copy] fills the fields and
    the rows of the new table and leaves its [options] nil, so the copy of
    the table that "required and optional fields" of the tests constructs
    differs from that table. *)
Theorem Copy_loses_options :
  NewWithOptions (Some sample_options) ["name"; "value"; "tag"]
                 [["foo"; "bar"; "baz"]]
    = (Some sample_schema_table, None) /\
  Copy sample_schema_table
    = mkDataTable ["name"; "value"; "tag"] [["foo"; "bar"; "baz"]] None /\
  Copy sample_schema_table <> sample_schema_table.
Proof.
  split; [reflexivity|]. split; [reflexivity|]. discriminate.
Qed.

(** * Further properties of the package *)

(** ** The three outcomes of [matchValues] *)

Lemma continues_not_parts (todo c : list string) :
  (exists rest, c = todo ++ rest) ->
  (exists cm x y a' b', todo = cm ++ x :: a' /\ c = cm ++ y :: b' /\ x <> y) ->
  False.
Proof.
  intros [rest ->] [cm [x [y [a' [b' [-> [H Hne]]]]]]].
  rewrite <- app_assoc in H. apply app_inv_head in H.
  simpl in H. injection H as H _. auto.
Qed.

Lemma continues_not_ends (todo c : list string) :
  (exists rest, c = todo ++ rest) ->
  (exists x rest, todo = c ++ x :: rest) ->
  False.
Proof.
  intros [rest ->] [x [rest' H]].
  apply (f_equal (@length string)) in H.
  rewrite !length_app in H. simpl in H. lia.
Qed.

Lemma parts_not_ends (todo c : list string) :
  (exists cm x y a' b', todo = cm ++ x :: a' /\ c = cm ++ y :: b' /\ x <> y) ->
  (exists x rest, todo = c ++ x :: rest) ->
  False.
Proof.
  intros [cm [x [y [a' [b' [-> [-> Hne]]]]]]] [x' [rest H]].
  rewrite <- app_assoc in H. apply app_inv_head in H.
  simpl in H. injection H as H _. auto.
Qed.

(** The loop, started at the end of [pre] with [c] still to read. *)
Lemma matchValues_loop_cases (todo : list string) :
  forall pre c : list string,
    let run := matchValues_loop (pre ++ c) (length pre) todo in
    ((exists rest, c = todo ++ rest) /\ run = Ret true)
    \/ ((exists cm x y a' b',
            todo = cm ++ x :: a' /\ c = cm ++ y :: b' /\ x <> y)
        /\ run = Ret false)
    \/ ((exists x rest, todo = c ++ x :: rest)
        /\ run = Panic (IndexOutOfRange (len (pre ++ c)) (len (pre ++ c)))).
Proof.
  induction todo as [|x todo IH]; intros pre c; simpl.
  - left. split; [exists c|]; reflexivity.
  - destruct c as [|y c].
    + right. right. split; [exists x, todo; reflexivity|].
      rewrite app_nil_r.
      assert (E : nth_error pre (length pre) = None)
        by (apply nth_error_None; lia).
      rewrite E. reflexivity.
    + rewrite nth_error_app2 by lia. rewrite Nat.sub_diag. simpl.
      destruct (String.eqb_spec y x) as [->|Hyx]; simpl.
      * specialize (IH (pre ++ [x]) c). simpl in IH.
        rewrite <- app_assoc, length_app, Nat.add_1_r in IH. simpl in IH.
        destruct IH as [[[rest ->] Hr]|[[[cm [x' [y' [a' [b' [-> [-> Hne]]]]]]] Hr]|[[x' [rest ->]] Hr]]].
        -- left. split; [exists rest; reflexivity | exact Hr].
        -- right. left. split; [|exact Hr].
           exists (x :: cm), x', y', a', b'. auto.
        -- right. right. split; [exists x', rest; reflexivity | exact Hr].
      * right. left. split; [|reflexivity].
        exists [], x, y, todo, c. auto.
Qed.

(** X1: [matchValues a b], for a table row [a] and a candidate [b]:
    - returns [true] exactly when the candidate starts with the whole row
      (whatever follows in the candidate is not looked at);
    - returns [false] exactly when the two differ at some position up to
      which they are equal;
    - panics, with the index and length both [len(b)], exactly when the
      candidate is a proper beginning of the row. *)
Theorem matchValues_outcomes (a b : list string) :
  (matchValues a b = Ret true <-> exists rest, b = a ++ rest)
  /\ (matchValues a b = Ret false <->
      exists pre x y a' b',
        a = pre ++ x :: a' /\ b = pre ++ y :: b' /\ x <> y)
  /\ (forall p, matchValues a b = Panic p <->
        p = IndexOutOfRange (len b) (len b) /\
        exists x rest, a = b ++ x :: rest).
Proof.
  unfold matchValues.
  pose proof (matchValues_loop_cases a [] b) as H. simpl in H.
  destruct H as [[Hc Hr]|[[Hc Hr]|[Hc Hr]]]; rewrite Hr.
  - split; [tauto|]. split.
    + split; [discriminate|]. intros H.
      destruct (continues_not_parts _ _ Hc H).
    + intros p. split; [discriminate|]. intros [_ H].
      destruct (continues_not_ends _ _ Hc H).
  - split; [|split].
    + split; [discriminate|]. intros H.
      destruct (continues_not_parts _ _ H Hc).
    + tauto.
    + intros p. split; [discriminate|]. intros [_ H].
      destruct (parts_not_ends _ _ Hc H).
  - split; [|split].
    + split; [discriminate|]. intros H.
      destruct (continues_not_ends _ _ H Hc).
    + split; [discriminate|]. intros H.
      destruct (parts_not_ends _ _ H Hc).
    + intros p. split.
      * intros E. injection E as <-. auto.
      * intros [-> _]. reflexivity.
Qed.

(** The same three cases, for use below. *)
Lemma matchValues_cases (a b : list string) :
  ((exists rest, b = a ++ rest) /\ matchValues a b = Ret true)
  \/ ((exists pre x y a' b',
          a = pre ++ x :: a' /\ b = pre ++ y :: b' /\ x <> y)
      /\ matchValues a b = Ret false)
  \/ ((exists x rest, a = b ++ x :: rest)
      /\ matchValues a b = Panic (IndexOutOfRange (len b) (len b))).
Proof. exact (matchValues_loop_cases a [] b). Qed.

(** On rows of one length the comparison is equality and cannot panic. *)
Lemma matchValues_same_length (a b : list string) :
  length a = length b ->
  (a = b /\ matchValues a b = Ret true)
  \/ (a <> b /\ matchValues a b = Ret false).
Proof.
  intros Hlen.
  destruct (matchValues_cases a b) as [[[rest ->] Hr]|[[Hc Hr]|[[x [rest ->]] Hr]]].
  - left. rewrite length_app in Hlen.
    destruct rest; [|simpl in Hlen; lia].
    rewrite app_nil_r. rewrite app_nil_r in Hr. auto.
  - right. split; [|exact Hr]. intros ->.
    destruct Hc as [pre [x [y [a' [b' [Ha [Hb Hne]]]]]]].
    rewrite Ha in Hb. apply app_inv_head in Hb. injection Hb as Hb _. auto.
  - rewrite length_app in Hlen. simpl in Hlen. lia.
Qed.

(** Against a longer row the comparison never returns [true]. *)
Lemma matchValues_shorter_candidate (a b : list string) :
  (length b < length a)%nat ->
  ((exists rest, a = b ++ rest)
   /\ matchValues a b = Panic (IndexOutOfRange (len b) (len b)))
  \/ (~ (exists rest, a = b ++ rest) /\ matchValues a b = Ret false).
Proof.
  intros Hlen.
  destruct (matchValues_cases a b) as [[[rest ->] Hr]|[[Hc Hr]|[[x [rest ->]] Hr]]].
  - rewrite length_app in Hlen. lia.
  - right. split; [|exact Hr]. intros [rest ->].
    destruct Hc as [pre [x [y [a' [b' [Ha [-> Hne]]]]]]].
    rewrite <- app_assoc in Ha. apply app_inv_head in Ha.
    injection Ha as Ha _. auto.
  - left. split; [exists (x :: rest); reflexivity | exact Hr].
Qed.

(** ** [FindRow] on well-formed tables *)

Lemma FindRow_loop_exact (row : list string) (rs : list (list string)) :
  forall i0 : Z,
    Forall (fun r => length r = length row) rs ->
    (~ In row rs /\ FindRow_loop row i0 rs = Ret (-1))
    \/ (exists pre post,
           rs = pre ++ row :: post /\ ~ In row pre /\
           FindRow_loop row i0 rs = Ret (i0 + len pre)).
Proof.
  induction rs as [|r rest IH]; intros i0 Hall; simpl.
  - left. split; [tauto | reflexivity].
  - inversion Hall as [|? ? Hr Hrest]; subst.
    destruct (matchValues_same_length r row Hr) as [[-> Hm]|[Hne Hm]];
      rewrite Hm.
    + right. exists [], rest. split; [reflexivity|]. split; [tauto|].
      unfold len. simpl. f_equal. lia.
    + destruct (IH (i0 + 1) Hrest) as [[Hnot Hf]|[pre [post [-> [Hnot Hf]]]]].
      * left. split; [|exact Hf]. intros [H|H]; [auto | exact (Hnot H)].
      * right. exists (r :: pre), post. split; [reflexivity|]. split.
        -- intros [H|H]; [auto | exact (Hnot H)].
        -- rewrite Hf. unfold len. simpl length. f_equal. lia.
Qed.

Lemma row_lengths_ok_same (t : DataTable) (row : list string) :
  row_lengths_ok t -> len row = len (fields t) ->
  Forall (fun r => length r = length row) (rows t).
Proof.
  unfold row_lengths_ok, len. intros Hok Hlen.
  eapply Forall_impl; [|exact Hok]. simpl. intros r Hr. lia.
Qed.

Lemma FindRow_exact (t : DataTable) (row : list string) :
  row_lengths_ok t -> len row = len (fields t) ->
  (~ In row (rows t) /\ FindRow t row = Ret (-1))
  \/ (exists pre post,
         rows t = pre ++ row :: post /\ ~ In row pre /\
         FindRow t row = Ret (len pre)).
Proof.
  intros Hok Hlen. unfold FindRow.
  destruct (FindRow_loop_exact row (rows t) 0
              (row_lengths_ok_same t row Hok Hlen))
    as [H|[pre [post [H1 [H2 H3]]]]].
  - left. exact H.
  - right. exists pre, post. rewrite Z.add_0_l in H3. auto.
Qed.

(** X3: On a table whose rows all have the length of the field list, a
    candidate of that length is searched by equality: [FindRow] returns
    the index of the first row equal to the candidate, [-1] when the
    candidate is not a row of the table, and never panics. *)
Theorem FindRow_exact_search (t : DataTable) (row : list string)
    (Hok : row_lengths_ok t) (Hlen : len row = len (fields t)) :
  (~ In row (rows t) /\ FindRow t row = Ret (-1))
  \/ (exists pre post,
         rows t = pre ++ row :: post /\ ~ In row pre /\
         FindRow t row = Ret (len pre)).
Proof. exact (FindRow_exact t row Hok Hlen). Qed.

Lemma FindRow_exact_search_witness :
  row_lengths_ok sample_table /\
  len ["7"; "8"; "9"] = len (fields sample_table) /\
  ((~ In ["7"; "8"; "9"] (rows sample_table)
    /\ FindRow sample_table ["7"; "8"; "9"] = Ret (-1))
   \/ (exists pre post,
          rows sample_table = pre ++ ["7"; "8"; "9"] :: post /\
          ~ In ["7"; "8"; "9"] pre /\
          FindRow sample_table ["7"; "8"; "9"] = Ret (len pre))).
Proof.
  assert (H1 : row_lengths_ok sample_table) by (repeat constructor).
  assert (H2 : len ["7"; "8"; "9"] = len (fields sample_table))
    by reflexivity.
  split; [exact H1|]. split; [exact H2|].
  exact (FindRow_exact_search sample_table ["7"; "8"; "9"] H1 H2).
Defined.

Lemma FindRow_loop_short (row : list string) (rs : list (list string)) :
  forall i0 : Z,
    Forall (fun r => (length row < length r)%nat) rs ->
    ((forall r, In r rs -> ~ exists rest, r = row ++ rest)
     /\ FindRow_loop row i0 rs = Ret (-1))
    \/ ((exists r, In r rs /\ exists rest, r = row ++ rest)
        /\ FindRow_loop row i0 rs
           = Panic (IndexOutOfRange (len row) (len row))).
Proof.
  induction rs as [|r rest IH]; intros i0 Hall; simpl.
  - left. split; [intros r [] | reflexivity].
  - inversion Hall as [|? ? Hr Hrest]; subst.
    destruct (matchValues_shorter_candidate r row Hr) as [[Hp Hm]|[Hnp Hm]];
      rewrite Hm.
    + right. split; [|reflexivity]. exists r. split; [left; reflexivity|].
      exact Hp.
    + destruct (IH (i0 + 1) Hrest) as [[Hnone Hf]|[[r' [Hin Hp]] Hf]].
      * left. split; [|exact Hf].
        intros r' [<-|Hin]; [exact Hnp | exact (Hnone r' Hin)].
      * right. split; [|exact Hf]. exists r'. split; [right; exact Hin|].
        exact Hp.
Qed.

(** X4: On such a table a candidate shorter than the field list is never
    found: [FindRow] returns [-1] when no row begins with the candidate,
    and panics (index out of range, at the candidate's length) as soon as
    some row does. *)
Theorem FindRow_short_candidate (t : DataTable) (row : list string)
    (Hok : row_lengths_ok t) (Hlen : len row < len (fields t)) :
  ((forall r, In r (rows t) -> ~ exists rest, r = row ++ rest)
   /\ FindRow t row = Ret (-1))
  \/ ((exists r, In r (rows t) /\ exists rest, r = row ++ rest)
      /\ FindRow t row = Panic (IndexOutOfRange (len row) (len row))).
Proof.
  unfold FindRow. apply FindRow_loop_short.
  unfold row_lengths_ok, len in *.
  eapply Forall_impl; [|exact Hok]. simpl. intros r Hr. lia.
Qed.

Lemma FindRow_short_candidate_witness :
  row_lengths_ok sample_table /\
  len ["7"; "8"] < len (fields sample_table) /\
  (((forall r, In r (rows sample_table) ->
               ~ exists rest, r = ["7"; "8"] ++ rest)
    /\ FindRow sample_table ["7"; "8"] = Ret (-1))
   \/ ((exists r, In r (rows sample_table) /\
                  exists rest, r = ["7"; "8"] ++ rest)
       /\ FindRow sample_table ["7"; "8"]
          = Panic (IndexOutOfRange (len ["7"; "8"]) (len ["7"; "8"])))).
Proof.
  assert (H1 : row_lengths_ok sample_table) by (repeat constructor).
  assert (H2 : len ["7"; "8"] < len (fields sample_table))
    by (unfold len; simpl; lia).
  split; [exact H1|]. split; [exact H2|].
  exact (FindRow_short_candidate sample_table ["7"; "8"] H1 H2).
Defined.

(** ** Search and mutation together *)

Lemma FindRow_loop_range (row : list string) (rs : list (list string)) :
  forall i0 i : Z,
    FindRow_loop row i0 rs = Ret i -> i = -1 \/ i0 <= i < i0 + len rs.
Proof.
  induction rs as [|r rest IH]; intros i0 i H; simpl in H.
  - injection H as <-. left. reflexivity.
  - unfold len. simpl length.
    destruct (matchValues r row) as [[|]|p]; [| |discriminate].
    + injection H as <-. right. lia.
    + destruct (IH _ _ H) as [->|Hi]; [left; reflexivity|].
      right. unfold len in Hi. lia.
Qed.

(** X5: Whatever [FindRow] returns is [-1] or an index of the table.  Handing
    it to [RemoveRow] removes a row in the second case and panics in the
    first: the not-found value is not an index [RemoveRow] accepts. *)
Theorem FindRow_result_into_RemoveRow (t : DataTable) (row : list string)
    (i : Z) (Hfind : FindRow t row = Ret i) :
  (i = -1 /\ RemoveRow t i = (Panic SliceBoundsOutOfRange, t))
  \/ (0 <= i < Len t /\
      exists t', RemoveRow t i = (Ret tt, t') /\ Len t' = Len t - 1).
Proof.
  destruct (FindRow_loop_range _ _ _ _ Hfind) as [->|Hi].
  - left. split; [reflexivity|]. apply RemoveRow_out_of_range. lia.
  - right. rewrite Z.add_0_l in Hi. split; [exact Hi|].
    destruct (RemoveRow_in_range t i Hi)
      as [pre [r [post [Hrows [Hpre Hrun]]]]].
    eexists. split; [exact Hrun|].
    unfold Len, len. simpl. rewrite Hrows, !length_app. simpl. lia.
Qed.

Lemma FindRow_result_into_RemoveRow_witness :
  FindRow sample_table ["0"; "0"; "0"] = Ret (-1) /\
  ((-1 = -1 /\
    RemoveRow sample_table (-1) = (Panic SliceBoundsOutOfRange, sample_table))
   \/ (0 <= -1 < Len sample_table /\
       exists t', RemoveRow sample_table (-1) = (Ret tt, t') /\
                  Len t' = Len sample_table - 1)).
Proof.
  assert (H : FindRow sample_table ["0"; "0"; "0"] = Ret (-1))
    by reflexivity.
  split; [exact H|].
  exact (FindRow_result_into_RemoveRow sample_table ["0"; "0"; "0"] (-1) H).
Defined.

Lemma matchValues_refl (row : list string) : matchValues row row = Ret true.
Proof.
  destruct (matchValues_same_length row row eq_refl) as [[_ H]|[H _]];
    [exact H | contradiction].
Qed.

Lemma FindRow_loop_snoc (row : list string) (rs : list (list string)) :
  forall i0 : Z,
    0 <= i0 ->
    FindRow_loop row i0 (rs ++ [row]) =
      match FindRow_loop row i0 rs with
      | Ret i => if i =? -1 then Ret (i0 + len rs) else Ret i
      | Panic p => Panic p
      end.
Proof.
  induction rs as [|r rest IH]; intros i0 Hi0; simpl.
  - rewrite matchValues_refl. unfold len. simpl. f_equal. lia.
  - destruct (matchValues r row) as [[|]|p]; [| |reflexivity].
    + destruct (i0 =? -1) eqn:E; [|reflexivity].
      apply Z.eqb_eq in E. lia.
    + rewrite IH by lia. unfold len. simpl length.
      replace (i0 + 1 + Z.of_nat (length rest))
        with (i0 + Z.of_nat (S (length rest))) by lia.
      reflexivity.
Qed.

(** X6: After a successful [AppendRow], searching for the appended row gives
    what it gave before, except that "not found" becomes the index of the
    new last row: an earlier match still wins, an earlier panic still
    happens. *)
Theorem AppendRow_then_FindRow (t : DataTable) (row : list string)
    (Hlen : len row = len (fields t)) :
  fst (AppendRow t row) = None /\
  FindRow (snd (AppendRow t row)) row =
    match FindRow t row with
    | Ret i => if i =? -1 then Ret (Len t) else Ret i
    | Panic p => Panic p
    end.
Proof.
  rewrite (AppendRow_fits t row Hlen). split; [reflexivity|].
  unfold FindRow, Len. simpl.
  rewrite FindRow_loop_snoc by lia. rewrite Z.add_0_l. reflexivity.
Qed.

Lemma AppendRow_then_FindRow_witness :
  len ["10"; "11"; "12"] = len (fields sample_table) /\
  FindRow (snd (AppendRow sample_table ["10"; "11"; "12"]))
          ["10"; "11"; "12"] = Ret 3.
Proof.
  assert (H : len ["10"; "11"; "12"] = len (fields sample_table))
    by reflexivity.
  split; [exact H|].
  exact (proj2 (AppendRow_then_FindRow sample_table ["10"; "11"; "12"] H)).
Defined.

(** X7: Removing the row an [AppendRow] has just added, at the index [Len]
    had before, gives the table back. *)
Theorem AppendRow_RemoveRow_round_trip (t : DataTable) (row : list string)
    (Hlen : len row = len (fields t)) :
  RemoveRow (snd (AppendRow t row)) (Len t) = (Ret tt, t).
Proof.
  rewrite (AppendRow_fits t row Hlen). cbn [snd].
  set (t1 := mkDataTable (fields t) (rows t ++ [row]) (options t)).
  assert (Hin : 0 <= Len t < len (rows t1)).
  { unfold Len, len, t1. simpl. rewrite length_app. simpl. lia. }
  destruct (RemoveRow_in_range t1 (Len t) Hin)
    as [pre [r [post [Hrows [Hpre Hrun]]]]].
  rewrite Hrun. f_equal. simpl in *.
  assert (Hl : length pre = length (rows t)) by (unfold Len, len in Hpre; lia).
  assert (E : pre = rows t /\ r :: post = [row]).
  { apply app_inj_1; [exact Hl | symmetry; exact Hrows]. }
  destruct E as [-> E]. injection E as _ ->.
  rewrite app_nil_r. destruct t; reflexivity.
Qed.

Lemma AppendRow_RemoveRow_round_trip_witness :
  len ["10"; "11"; "12"] = len (fields sample_table) /\
  RemoveRow (snd (AppendRow sample_table ["10"; "11"; "12"]))
            (Len sample_table) = (Ret tt, sample_table).
Proof.
  assert (H : len ["10"; "11"; "12"] = len (fields sample_table))
    by reflexivity.
  split; [exact H|].
  exact (AppendRow_RemoveRow_round_trip sample_table ["10"; "11"; "12"] H).
Defined.

(** X8: On a well-formed table without repeated rows, removing a row at the
    index [FindRow] gave for it makes a second search for it return
    [-1]. *)
Theorem RemoveRow_found_row_is_gone (t : DataTable) (row : list string)
    (i : Z)
    (Hok : row_lengths_ok t) (Hlen : len row = len (fields t))
    (Hnodup : List.NoDup (rows t))
    (Hfind : FindRow t row = Ret i) (Hfound : i <> -1) :
  exists t', RemoveRow t i = (Ret tt, t') /\ FindRow t' row = Ret (-1).
Proof.
  destruct (FindRow_exact t row Hok Hlen)
    as [[_ H]|[pre [post [Hrows [Hpre H]]]]].
  - rewrite H in Hfind. injection Hfind as <-. contradiction.
  - rewrite H in Hfind. injection Hfind as <-.
    assert (Hin : 0 <= len pre < len (rows t)).
    { rewrite Hrows. unfold len. rewrite length_app. simpl. lia. }
    destruct (RemoveRow_in_range t (len pre) Hin)
      as [pre' [r [post' [Hrows' [Hpre' Hrun]]]]].
    assert (E : pre' = pre /\ r :: post' = row :: post).
    { apply app_inj_1; [unfold len in Hpre'; lia | congruence]. }
    destruct E as [-> E]. injection E as -> ->.
    eexists. split; [exact Hrun|].
    set (t' := mkDataTable (fields t) (pre ++ post) (options t)).
    assert (Hok' : row_lengths_ok t').
    { unfold row_lengths_ok in *. simpl. rewrite Hrows in Hok.
      apply Forall_app in Hok. destruct Hok as [Hp Hq].
      apply Forall_app. split; [exact Hp | inversion Hq; assumption]. }
    destruct (FindRow_exact t' row Hok' Hlen)
      as [[_ H']|[pre2 [post2 [Hrows2 _]]]]; [exact H'|].
    exfalso. rewrite Hrows in Hnodup.
    apply List.NoDup_remove_2 in Hnodup. apply Hnodup.
    simpl in Hrows2. rewrite Hrows2. apply in_elt.
Qed.

Lemma RemoveRow_found_row_is_gone_witness :
  List.NoDup (rows sample_table) /\
  FindRow sample_table ["4"; "5"; "6"] = Ret 1 /\
  exists t', RemoveRow sample_table 1 = (Ret tt, t') /\
             FindRow t' ["4"; "5"; "6"] = Ret (-1).
Proof.
  assert (Hok : row_lengths_ok sample_table) by (repeat constructor).
  assert (Hlen : len ["4"; "5"; "6"] = len (fields sample_table))
    by reflexivity.
  assert (Hnodup : List.NoDup (rows sample_table)).
  { repeat constructor; simpl; intuition discriminate. }
  assert (Hfind : FindRow sample_table ["4"; "5"; "6"] = Ret 1)
    by reflexivity.
  assert (Hfound : 1 <> -1) by discriminate.
  split; [exact Hnodup|]. split; [exact Hfind|].
  exact (RemoveRow_found_row_is_gone sample_table ["4"; "5"; "6"] 1
           Hok Hlen Hnodup Hfind Hfound).
Defined.

(** ** When construction succeeds, and what its errors say *)

Lemma rowLengthLoop_Some (n : Z) (rs : list (list string)) (e : error) :
  rowLengthLoop n rs = Some e ->
  exists row, first_bad_row n rs row /\ e = ErrRowLength n (len row).
Proof.
  induction rs as [|r rest IH]; simpl; [discriminate|].
  destruct (len r =? n) eqn:E; simpl.
  - apply Z.eqb_eq in E. intros H.
    destruct (IH H) as [row [[pre [post [-> [Hpre Hrow]]]] ->]].
    exists row. split; [|reflexivity].
    exists (r :: pre), post. split; [reflexivity|].
    split; [constructor; assumption | exact Hrow].
  - apply Z.eqb_neq in E. intros H. injection H as <-.
    exists r. split; [|reflexivity].
    exists [], rest. split; [reflexivity|]. split; [constructor | exact E].
Qed.

Lemma requiredLoop_Some (fs required : list string) (e : error) :
  requiredLoop fs required = Some e ->
  exists f, first_outside required fs f /\ e = ErrMissingField f.
Proof.
  induction required as [|x rest IH]; simpl; [discriminate|].
  destruct (contains fs x) eqn:E; simpl.
  - apply contains_In in E. intros H.
    destruct (IH H) as [f [[pre [post [-> [Hpre Hf]]]] ->]].
    exists f. split; [|reflexivity].
    exists (x :: pre), post. split; [reflexivity|].
    split; [constructor; assumption | exact Hf].
  - apply contains_false in E. intros H. injection H as <-.
    exists x. split; [|reflexivity].
    exists [], rest. split; [reflexivity|]. split; [constructor | exact E].
Qed.

Lemma allowedLoop_Some (allowedFields fs : list string) (e : error) :
  allowedLoop allowedFields fs = Some e ->
  exists f, first_outside fs allowedFields f /\
            e = ErrAdditionalField f allowedFields.
Proof.
  induction fs as [|x rest IH]; simpl; [discriminate|].
  destruct (contains allowedFields x) eqn:E; simpl.
  - apply contains_In in E. intros H.
    destruct (IH H) as [f [[pre [post [-> [Hpre Hf]]]] ->]].
    exists f. split; [|reflexivity].
    exists (x :: pre), post. split; [reflexivity|].
    split; [constructor; assumption | exact Hf].
  - apply contains_false in E. intros H. injection H as <-.
    exists x. split; [|reflexivity].
    exists [], rest. split; [reflexivity|]. split; [constructor | exact E].
Qed.

(** Every error of construction names a real violation. *)
Lemma NewWithOptions_error_inv (opts : option Options) (fs : list string)
    (rs : list (list string)) (e : error) :
  snd (NewWithOptions opts fs rs) = Some e ->
  (exists row,
      first_bad_row (len fs) rs row /\ e = ErrRowLength (len fs) (len row))
  \/ (exists o f,
         opts = Some o /\ Forall (fun r => len r = len fs) rs /\
         first_outside (RequiredFields o) fs f /\ e = ErrMissingField f)
  \/ (exists o f,
         opts = Some o /\ Forall (fun r => len r = len fs) rs /\
         Forall (fun r => In r fs) (RequiredFields o) /\
         OptionalFields o <> [] /\
         first_outside fs (OptionalFields o ++ RequiredFields o) f /\
         e = ErrAdditionalField f (OptionalFields o ++ RequiredFields o)).
Proof.
  unfold NewWithOptions.
  destruct (rowLengthLoop (len fs) rs) as [err|] eqn:Erows; simpl.
  - intros H. injection H as ->. left. apply rowLengthLoop_Some, Erows.
  - apply rowLengthLoop_None in Erows.
    unfold validateFields. simpl. destruct opts as [o|]; [|discriminate].
    destruct (requiredLoop fs (RequiredFields o)) as [err|] eqn:Ereq; simpl.
    + intros H. injection H as ->. right. left.
      destruct (requiredLoop_Some _ _ _ Ereq) as [f [Hf ->]].
      exists o, f. auto.
    + apply requiredLoop_None in Ereq.
      destruct (len (OptionalFields o) =? 0) eqn:Eopt; [discriminate|].
      destruct (allowedLoop (OptionalFields o ++ RequiredFields o) fs)
        as [err|] eqn:Eall; simpl; [|discriminate].
      intros H. injection H as ->. right. right.
      destruct (allowedLoop_Some _ _ _ Eall) as [f [Hf ->]].
      exists o, f. repeat split; try assumption.
      intros Hnil. apply len_zero_iff in Hnil. congruence.
Qed.

(** On values: construction succeeds exactly when every row has the length of the
    field list and, under a schema, every required field is among the
    fields and, if the schema lists optional fields, every field is an
    optional or a required one.  The table then holds the given fields,
    rows and schema. *)
Theorem NewWithOptions_success_iff (opts : option Options)
    (fs : list string) (rs : list (list string)) (t : DataTable) :
  NewWithOptions opts fs rs = (Some t, None) <->
  t = mkDataTable fs rs opts /\
  Forall (fun r => len r = len fs) rs /\
  (forall o, opts = Some o ->
     Forall (fun r => In r fs) (RequiredFields o) /\
     (OptionalFields o <> [] ->
      Forall (fun f => In f (OptionalFields o ++ RequiredFields o)) fs)).
Proof.
  split.
  - intros H. pose proof (NewWithOptions_success_inv _ _ _ _ H) as [-> Hrows].
    split; [reflexivity|]. split; [exact Hrows|].
    intros o ->. rewrite (NewWithOptions_rows_ok _ _ _ Hrows) in H.
    destruct (validateFields (mkDataTable fs rs (Some o))) eqn:Ev;
      [discriminate|].
    apply (validateFields_None_inv (mkDataTable fs rs (Some o)) o
             eq_refl Ev).
  - intros [-> [Hrows Hschema]].
    rewrite (NewWithOptions_rows_ok _ _ _ Hrows).
    destruct opts as [o|]; [|reflexivity].
    destruct (Hschema o eq_refl) as [Hreq Hclosed].
    assert (Ev : validateFields (mkDataTable fs rs (Some o)) = None).
    { destruct (OptionalFields o) as [|x l] eqn:Eopt.
      - apply (validateFields_open_ok (mkDataTable fs rs (Some o)) o
                 eq_refl Hreq Eopt).
      - apply (validateFields_closed_ok (mkDataTable fs rs (Some o)) o
                 eq_refl Hreq).
        simpl. rewrite Eopt. apply Hclosed. discriminate. }
    rewrite Ev. reflexivity.
Qed.

(** On values: an error returned by construction is one of three, each with its
    cause: the row-length error, for the first row whose length is not the
    field count; the missing-field error, for the first required field
    that is not a field, all rows being right; the additional-field
    error, for the first field outside a non-empty optional list and the
    required list, everything before being right.  The too-few-rows error
    never comes from construction, and without a schema only the
    row-length error does. *)
Theorem NewWithOptions_error_sound (opts : option Options)
    (fs : list string) (rs : list (list string)) (e : error)
    (Herr : snd (NewWithOptions opts fs rs) = Some e) :
  ((exists row,
       first_bad_row (len fs) rs row /\ e = ErrRowLength (len fs) (len row))
   \/ (exists o f,
          opts = Some o /\ Forall (fun r => len r = len fs) rs /\
          first_outside (RequiredFields o) fs f /\ e = ErrMissingField f)
   \/ (exists o f,
          opts = Some o /\ Forall (fun r => len r = len fs) rs /\
          Forall (fun r => In r fs) (RequiredFields o) /\
          OptionalFields o <> [] /\
          first_outside fs (OptionalFields o ++ RequiredFields o) f /\
          e = ErrAdditionalField f (OptionalFields o ++ RequiredFields o)))
  /\ e <> ErrTooFewRows
  /\ (opts = None -> exists row, In row rs /\ len row <> len fs /\
                                 e = ErrRowLength (len fs) (len row)).
Proof.
  pose proof (NewWithOptions_error_inv opts fs rs e Herr) as H.
  split; [exact H|]. split.
  - destruct H as [[row [_ ->]]|[[o [f [_ [_ [_ ->]]]]]|[o [f [_ [_ [_ [_ [_ ->]]]]]]]]];
      discriminate.
  - intros ->.
    destruct H as [[row [[pre [post [-> [_ Hrow]]]] ->]]|[[o [f [Ho _]]]|[o [f [Ho _]]]]];
      [|discriminate|discriminate].
    exists row. split; [apply in_elt | auto].
Qed.

Lemma NewWithOptions_error_sound_witness :
  snd (NewWithOptions None ["name"; "value"] [["foo"]])
    = Some (ErrRowLength 2 1) /\
  ErrRowLength 2 1 <> ErrTooFewRows.
Proof.
  assert (H : snd (NewWithOptions None ["name"; "value"] [["foo"]])
              = Some (ErrRowLength 2 1)) by reflexivity.
  split; [exact H|].
  exact (proj1 (proj2 (NewWithOptions_error_sound None ["name"; "value"]
                         [["foo"]] (ErrRowLength 2 1) H))).
Defined.

(** ** Gherkin tables *)

Lemma values_buildTable_row (row : list string) :
  values (mkTableRow (map (fun value => mkTableCell value) row)) = row.
Proof.
  unfold values. simpl. induction row as [|x row IH]; simpl;
    [reflexivity | rewrite IH; reflexivity].
Qed.

Lemma rowValues_buildTable (src : list (list string)) :
  rowValues (Rows (buildTable src)) = src.
Proof.
  unfold rowValues, buildTable. simpl.
  induction src as [|row src IH]; simpl; [reflexivity|].
  rewrite IH. f_equal. apply values_buildTable_row.
Qed.

(** X11: Converting the gherkin table that [buildTable] makes of a list of
    string rows is constructing from its first row as fields and the
    others as rows; with fewer than two rows in the list it is the
    too-few-rows error. *)
Theorem FromGherkinWithOptions_buildTable (opts : option Options)
    (src : list (list string)) :
  FromGherkinWithOptions opts (buildTable src) =
    match src with
    | fs :: (_ :: _) as rs => NewWithOptions opts fs rs
    | _ => (None, Some ErrTooFewRows)
    end.
Proof.
  destruct src as [|fs [|r rs]]; [reflexivity | reflexivity |].
  pose proof (rowValues_buildTable (fs :: r :: rs)) as H.
  unfold FromGherkinWithOptions.
  assert (E : (len (Rows (buildTable (fs :: r :: rs))) <? 2) = false).
  { apply Z.ltb_ge. unfold len, buildTable. simpl.
    rewrite length_map. lia. }
  rewrite E. unfold rowValues in H. simpl in H. injection H as H1 H2 H3.
  unfold rowValues. simpl. rewrite H1, H2, H3. reflexivity.
Qed.

(** X12: A table that comes out of the conversion has the header's cell values
    as fields, one row per gherkin row after the header and so at least
    one row, and the schema given; the gherkin table was rectangular. *)
Theorem FromGherkinWithOptions_success_shape (opts : option Options)
    (g : GherkinDataTable) (t : DataTable)
    (Hconv : FromGherkinWithOptions opts g = (Some t, None)) :
  exists header data,
    Rows g = header :: data /\ data <> [] /\
    Fields t = values header /\ RowValues t = rowValues data /\
    options t = opts /\
    Len t = len (Rows g) - 1 /\ 1 <= Len t /\
    Forall (fun r => len (Cells r) = len (Cells header)) data.
Proof.
  unfold FromGherkinWithOptions in Hconv.
  destruct (len (Rows g) <? 2) eqn:E; [discriminate|].
  apply Z.ltb_ge in E.
  destruct (Rows g) as [|header [|d data]] eqn:Hg;
    [unfold len in E; simpl in E; lia | unfold len in E; simpl in E; lia |].
  apply NewWithOptions_success_inv in Hconv. destruct Hconv as [-> Hrows].
  exists header, (d :: data). simpl nth in *. simpl skipn in *.
  split; [reflexivity|]. split; [discriminate|].
  split; [reflexivity|]. split; [reflexivity|]. split; [reflexivity|].
  split; [|split].
  - unfold Len, len, rowValues. simpl. rewrite length_map. lia.
  - unfold Len, len, rowValues. simpl. lia.
  - unfold rowValues in Hrows. apply Forall_map in Hrows.
    eapply Forall_impl; [|exact Hrows]. simpl. intros r Hr.
    unfold values, len in Hr. rewrite !length_map in Hr. exact Hr.
Qed.

Lemma FromGherkinWithOptions_success_shape_witness :
  FromGherkinWithOptions None sample_gherkin = (Some sample_table, None) /\
  exists header data,
    Rows sample_gherkin = header :: data /\ data <> [] /\
    Fields sample_table = values header /\
    RowValues sample_table = rowValues data /\
    options sample_table = None /\
    Len sample_table = len (Rows sample_gherkin) - 1 /\
    1 <= Len sample_table /\
    Forall (fun r => len (Cells r) = len (Cells header)) data.
Proof.
  assert (H : FromGherkinWithOptions None sample_gherkin
              = (Some sample_table, None)) by reflexivity.
  split; [exact H|].
  exact (FromGherkinWithOptions_success_shape None sample_gherkin
           sample_table H).
Defined.

(** X13: The too-few-rows error is returned exactly for gherkin tables with
    fewer than two rows. *)
Theorem FromGherkinWithOptions_too_few_rows_iff (opts : option Options)
    (g : GherkinDataTable) :
  snd (FromGherkinWithOptions opts g) = Some ErrTooFewRows
  <-> len (Rows g) < 2.
Proof.
  unfold FromGherkinWithOptions.
  destruct (len (Rows g) <? 2) eqn:E.
  - apply Z.ltb_lt in E. simpl. tauto.
  - apply Z.ltb_ge in E. split; [|lia]. intros H.
    apply NewWithOptions_error_inv in H.
    destruct H as [[row [_ H]]|[[o [f [_ [_ [_ H]]]]]|[o [f [_ [_ [_ [_ [_ H]]]]]]]]];
      discriminate.
Qed.

(** ** The map view [Rows] *)

Lemma Rows_fields_loop_ok (row todo : list string) :
  forall (j : nat) (m : gmap string string),
    (j + length todo <= length row)%nat ->
    exists m',
      Rows_fields_loop row j todo m = Ret m' /\
      (forall f, ~ In f todo -> m' !! f = m !! f) /\
      (forall pre f post,
          todo = pre ++ f :: post -> ~ In f post ->
          m' !! f = nth_error row (j + length pre)).
Proof.
  induction todo as [|field rest IH]; intros j m Hj; simpl in *.
  - exists m. split; [reflexivity|]. split; [reflexivity|].
    intros [|x pre] f post H; discriminate.
  - destruct (nth_error row j) as [v|] eqn:Ev.
    2:{ apply nth_error_None in Ev. lia. }
    destruct (IH (S j) (<[field := v]> m)) as [m' [Hrun [Hout Hin]]]; [lia|].
    exists m'. split; [exact Hrun|]. split.
    + intros f Hf. rewrite Hout by tauto.
      apply lookup_insert_ne. intros ->. tauto.
    + intros [|x pre] f post H Hf; simpl in H; injection H as -> ->.
      * rewrite Hout by exact Hf. rewrite lookup_insert_eq.
        rewrite Nat.add_0_r. symmetry. exact Ev.
      * simpl. replace (j + S (length pre))%nat
          with (S j + length pre)%nat by lia.
        apply (Hin pre f post eq_refl Hf).
Qed.

Lemma Rows_fields_loop_panics (row todo : list string) :
  forall (j : nat) (m : gmap string string),
    (j <= length row)%nat -> (length row < j + length todo)%nat ->
    Rows_fields_loop row j todo m
      = Panic (IndexOutOfRange (len row) (len row)).
Proof.
  induction todo as [|field rest IH]; intros j m Hle Hlt; simpl in *.
  - lia.
  - destruct (nth_error row j) as [v|] eqn:Ev.
    + assert (j < length row)%nat by (apply nth_error_Some; congruence).
      apply IH; lia.
    + apply nth_error_None in Ev. assert (j = length row) by lia.
      subst j. reflexivity.
Qed.

(** The view of one row under the fields [fs]: no key but the fields, and
    under each field the cell at the last position where the field list
    has that name. *)
Lemma Rows_rows_loop_ok (fs : list string) (rs : list (list string)) :
  Forall (fun row => (length fs <= length row)%nat) rs ->
  exists s,
    Rows_rows_loop fs rs = Ret s /\
    Forall2 (fun row (m : gmap string string) =>
               (forall f, ~ In f fs -> m !! f = None) /\
               (forall pre f post,
                   fs = pre ++ f :: post -> ~ In f post ->
                   m !! f = nth_error row (length pre)))
            rs s.
Proof.
  induction rs as [|row rest IH]; intros Hall; simpl.
  - exists []. split; [reflexivity | constructor].
  - inversion Hall as [|? ? Hrow Hrest]; subst.
    destruct (Rows_fields_loop_ok row fs 0 ∅) as [m [Hrun [Hout Hin]]];
      [simpl; lia|].
    rewrite Hrun. destruct (IH Hrest) as [s [Hs Hall2]]. rewrite Hs.
    exists (m :: s). split; [reflexivity|]. constructor; [|exact Hall2].
    split.
    + intros f Hf. rewrite (Hout f Hf). apply lookup_empty.
    + intros pre f post H Hf. apply (Hin pre f post H Hf).
Qed.

Lemma Rows_rows_loop_panics (fs : list string) (rs : list (list string)) :
  Exists (fun row => (length row < length fs)%nat) rs ->
  exists p, Rows_rows_loop fs rs = Panic p.
Proof.
  induction rs as [|row rest IH]; intros Hex; simpl.
  - inversion Hex.
  - destruct (Nat.lt_ge_cases (length row) (length fs)) as [Hshort|Hlong].
    + rewrite Rows_fields_loop_panics by (simpl; lia). eauto.
    + destruct (Rows_fields_loop_ok row fs 0 ∅) as [m [Hrun _]];
        [simpl; lia|].
      rewrite Hrun. inversion Hex as [? ? H|? ? H]; subst; [lia|].
      destruct (IH H) as [p Hp]. rewrite Hp. eauto.
Qed.

(** [TestRows]. *)
Example TestRows :
  DataTable_Rows sample_table
  = Ret [ {[ "one" := "1"; "two" := "2"; "three" := "3" ]};
          {[ "one" := "4"; "two" := "5"; "three" := "6" ]};
          {[ "one" := "7"; "two" := "8"; "three" := "9" ]} ].
Proof. vm_compute. reflexivity. Qed.

(** X14: When no row is shorter than the field list, [Rows] returns one map per
    row, in row order.  The keys of each map are the field names, and the
    value under a name is the row's cell at the last position where the
    field list has that name: a repeated name keeps the later cell, and
    cells beyond the field list are left out. *)
Theorem DataTable_Rows_view (t : DataTable)
    (Hlong : Forall (fun row => len (fields t) <= len row) (rows t)) :
  exists s,
    DataTable_Rows t = Ret s /\
    Forall2 (fun row (m : gmap string string) =>
               (forall f, ~ In f (fields t) -> m !! f = None) /\
               (forall pre f post,
                   fields t = pre ++ f :: post -> ~ In f post ->
                   m !! f = nth_error row (length pre)))
            (rows t) s.
Proof.
  apply Rows_rows_loop_ok.
  eapply Forall_impl; [|exact Hlong]. simpl. unfold len. intros r Hr. lia.
Qed.

Lemma DataTable_Rows_view_witness :
  Forall (fun row => len (fields sample_table) <= len row)
         (rows sample_table) /\
  exists s,
    DataTable_Rows sample_table = Ret s /\
    Forall2 (fun row (m : gmap string string) =>
               (forall f, ~ In f (fields sample_table) -> m !! f = None) /\
               (forall pre f post,
                   fields sample_table = pre ++ f :: post -> ~ In f post ->
                   m !! f = nth_error row (length pre)))
            (rows sample_table) s.
Proof.
  assert (H : Forall (fun row => len (fields sample_table) <= len row)
                     (rows sample_table)).
  { repeat constructor; unfold len; simpl; lia. }
  split; [exact H | exact (DataTable_Rows_view sample_table H)].
Defined.

(** X15: [Rows] panics exactly when some row of the table is shorter than
    the field list; when none is, it returns as many maps as the table
    has rows. *)
Theorem DataTable_Rows_panics_iff (t : DataTable) :
  ((exists p, DataTable_Rows t = Panic p) <->
   Exists (fun row => len row < len (fields t)) (rows t))
  /\ (~ Exists (fun row => len row < len (fields t)) (rows t) ->
      exists s, DataTable_Rows t = Ret s /\ len s = Len t).
Proof.
  assert (Hret :
            Forall (fun row => (length (fields t) <= length row)%nat)
                   (rows t) ->
            exists s, DataTable_Rows t = Ret s /\ len s = Len t).
  { intros H. destruct (Rows_rows_loop_ok _ _ H) as [s [Hs Hall]].
    exists s. split; [exact Hs|]. unfold Len, len. f_equal.
    symmetry. eapply Forall2_length. exact Hall. }
  assert (Hdec :
            Forall (fun row => (length (fields t) <= length row)%nat)
                   (rows t)
            \/ Exists (fun row => len row < len (fields t)) (rows t)).
  { destruct (Forall_Exists_dec
                (fun row => (length (fields t) <= length row)%nat)
                (fun row => le_dec (length (fields t)) (length row))
                (rows t)) as [Hall|Hex]; [left; exact Hall|].
    right. eapply Exists_impl; [|exact Hex]. simpl. unfold len.
    intros r Hr. lia. }
  split.
  - split.
    + intros [p Hp]. destruct Hdec as [Hall|Hex]; [|exact Hex].
      destruct (Hret Hall) as [s [Hs _]]. congruence.
    + intros Hex. apply Rows_rows_loop_panics.
      eapply Exists_impl; [|exact Hex]. simpl. unfold len.
      intros r Hr. lia.
  - intros Hno. destruct Hdec as [Hall|Hex]; [exact (Hret Hall)|].
    contradiction.
Qed.

Lemma DataTable_Rows_panics_iff_witness :
  exists p, DataTable_Rows (mkDataTable ["a"; "b"] [["1"; "2"]; ["3"]] None)
            = Panic p.
Proof.
  apply (proj1 (DataTable_Rows_panics_iff
                  (mkDataTable ["a"; "b"] [["1"; "2"]; ["3"]] None))).
  apply Exists_cons_tl, Exists_cons_hd. unfold len. simpl. lia.
Defined.

(** ** Every outcome of [FindRow] *)

Lemma FindRow_loop_outcomes (c : list string) (rs : list (list string)) :
  forall i0 : Z,
    (Forall (fun r => exists cm x y a' b',
                 r = cm ++ x :: a' /\ c = cm ++ y :: b' /\ x <> y) rs
     /\ FindRow_loop c i0 rs = Ret (-1))
    \/ (exists pre r post,
           rs = pre ++ r :: post /\
           Forall (fun r => exists cm x y a' b',
                      r = cm ++ x :: a' /\ c = cm ++ y :: b' /\ x <> y) pre /\
           (exists rest, c = r ++ rest) /\
           FindRow_loop c i0 rs = Ret (i0 + len pre))
    \/ (exists pre r post,
           rs = pre ++ r :: post /\
           Forall (fun r => exists cm x y a' b',
                      r = cm ++ x :: a' /\ c = cm ++ y :: b' /\ x <> y) pre /\
           (exists x rest, r = c ++ x :: rest) /\
           FindRow_loop c i0 rs = Panic (IndexOutOfRange (len c) (len c))).
Proof.
  induction rs as [|r rest IH]; intros i0; simpl.
  - left. split; [constructor | reflexivity].
  - destruct (matchValues_cases r c) as [[Hc Hm]|[[Hc Hm]|[Hc Hm]]];
      rewrite Hm.
    + right. left. exists [], r, rest. split; [reflexivity|].
      split; [constructor|]. split; [exact Hc|].
      unfold len. simpl. f_equal. lia.
    + destruct (IH (i0 + 1))
        as [[Hall Hf]|[[pre [r' [post [-> [Hall [Hr Hf]]]]]]|[pre [r' [post [-> [Hall [Hr Hf]]]]]]]].
      * left. split; [constructor; assumption | exact Hf].
      * right. left. exists (r :: pre), r', post. split; [reflexivity|].
        split; [constructor; assumption|]. split; [exact Hr|].
        rewrite Hf. unfold len. simpl length. f_equal. lia.
      * right. right. exists (r :: pre), r', post. split; [reflexivity|].
        split; [constructor; assumption|]. split; [exact Hr | exact Hf].
    + right. right. exists [], r, rest. split; [reflexivity|].
      split; [constructor|]. split; [exact Hc | reflexivity].
Qed.

(** X2: [FindRow], for any table and any candidate, is decided by the first
    row that does not differ from the candidate at a position they both
    have.  If there is no such row the result is [-1].  If that row is a
    beginning of the candidate (the candidate itself, or the candidate cut
    short) the result is its index.  If the candidate is a proper
    beginning of that row the call panics with an index out of range at
    the candidate's length. *)
Theorem FindRow_outcomes (t : DataTable) (c : list string) :
  (Forall (fun r => exists cm x y a' b',
               r = cm ++ x :: a' /\ c = cm ++ y :: b' /\ x <> y) (rows t)
   /\ FindRow t c = Ret (-1))
  \/ (exists pre r post,
         rows t = pre ++ r :: post /\
         Forall (fun r => exists cm x y a' b',
                    r = cm ++ x :: a' /\ c = cm ++ y :: b' /\ x <> y) pre /\
         (exists rest, c = r ++ rest) /\
         FindRow t c = Ret (len pre))
  \/ (exists pre r post,
         rows t = pre ++ r :: post /\
         Forall (fun r => exists cm x y a' b',
                    r = cm ++ x :: a' /\ c = cm ++ y :: b' /\ x <> y) pre /\
         (exists x rest, r = c ++ x :: rest) /\
         FindRow t c = Panic (IndexOutOfRange (len c) (len c))).
Proof.
  unfold FindRow.
  destruct (FindRow_loop_outcomes c (rows t) 0)
    as [H|[[pre [r [post [H1 [H2 [H3 H4]]]]]]|H]].
  - left. exact H.
  - right. left. exists pre, r, post. rewrite Z.add_0_l in H4. auto.
  - right. right. exact H.
Qed.

(** ** [FindRow] and the specification's search *)

Lemma spec_matchRow_continues (r rest : list string) :
  spec_matchRow r (r ++ rest) = true.
Proof.
  induction r as [|x r IH]; simpl; [reflexivity|].
  rewrite String.eqb_refl. exact IH.
Qed.

Lemma spec_matchRow_ends (c rest : list string) :
  spec_matchRow (c ++ rest) c = true.
Proof.
  induction c as [|x c IH]; simpl; [destruct rest; reflexivity|].
  rewrite String.eqb_refl. exact IH.
Qed.

Lemma spec_matchRow_parts (pre a' b' : list string) (x y : string) :
  x <> y -> spec_matchRow (pre ++ x :: a') (pre ++ y :: b') = false.
Proof.
  intros Hne. induction pre as [|z pre IH]; simpl.
  - apply String.eqb_neq in Hne. rewrite Hne. reflexivity.
  - rewrite String.eqb_refl. exact IH.
Qed.

Lemma FindRow_loop_spec_or_panics (c : list string)
    (rs : list (list string)) :
  forall i0 : Z,
    0 <= i0 ->
    FindRow_loop c i0 rs = Ret (spec_findRow_from i0 rs c)
    \/ (FindRow_loop c i0 rs = Panic (IndexOutOfRange (len c) (len c))
        /\ 0 <= spec_findRow_from i0 rs c).
Proof.
  induction rs as [|r rest IH]; intros i0 Hi0; simpl.
  - left. reflexivity.
  - destruct (matchValues_cases r c)
      as [[[k ->] Hm]|[[[pre [x [y [a' [b' [-> [-> Hne]]]]]]] Hm]|[[x [k ->]] Hm]]];
      rewrite Hm.
    + rewrite spec_matchRow_continues. left. reflexivity.
    + rewrite (spec_matchRow_parts pre a' b' x y Hne). apply IH. lia.
    + rewrite spec_matchRow_ends. right. split; [reflexivity | exact Hi0].
Qed.

(** Whenever [FindRow] returns, it returns what the specification's search
    (pairwise equality up to the shorter length) returns; when it panics,
    that search has found a row. *)
Lemma FindRow_meets_spec_or_panics (t : DataTable) (c : list string) :
  FindRow t c = Ret (spec_findRow t c)
  \/ (FindRow t c = Panic (IndexOutOfRange (len c) (len c))
      /\ 0 <= spec_findRow t c).
Proof. apply FindRow_loop_spec_or_panics. lia. Qed.

(** * Slices and their storage *)

(** ** Arrays, windows and [append] *)

Section ArrayFacts.
Context {A : Type}.
Implicit Types (m : Slices.store A) (s u : Slices.slice) (xs a : list A).

Lemma array_at_length_lt m n :
  (0 < length (Slices.array_at m n))%nat -> (n < length m)%nat.
Proof.
  unfold Slices.array_at. intros H.
  destruct (Nat.lt_ge_cases n (length m)) as [Hlt|Hge]; [exact Hlt|].
  rewrite nth_overflow in H by exact Hge. simpl in H. lia.
Qed.

Lemma array_at_insert_eq m n a :
  (n < length m)%nat -> Slices.array_at (<[n := a]> m) n = a.
Proof.
  unfold Slices.array_at. revert n.
  induction m as [|x m IH]; intros [|n] H; simpl in *; try lia.
  - reflexivity.
  - apply IH. lia.
Qed.

Lemma array_at_insert_ne m n n' a :
  n <> n' -> Slices.array_at (<[n := a]> m) n' = Slices.array_at m n'.
Proof.
  unfold Slices.array_at. revert n n'.
  induction m as [|x m IH]; intros [|n] [|n'] H; simpl in *;
    try reflexivity; try congruence.
  apply IH. congruence.
Qed.

Lemma insert_out_of_range m n a :
  (length m <= n)%nat -> <[n := a]> m = m.
Proof.
  revert n. induction m as [|x m IH]; intros [|n] H; simpl in *;
    try reflexivity; try lia.
  f_equal. apply IH. lia.
Qed.

Lemma array_at_app_old m a n :
  (n < length m)%nat -> Slices.array_at (m ++ [a]) n = Slices.array_at m n.
Proof. unfold Slices.array_at. intros H. apply app_nth1, H. Qed.

Lemma array_at_app_new m a :
  Slices.array_at (m ++ [a]) (length m) = a.
Proof.
  unfold Slices.array_at. rewrite app_nth2 by lia.
  rewrite Nat.sub_diag. reflexivity.
Qed.

Lemma length_elems m s :
  Slices.slice_ok m s -> length (Slices.elems m s) = Slices.slen s.
Proof.
  intros [H1 H2]. unfold Slices.elems.
  rewrite length_firstn, length_skipn. lia.
Qed.

Lemma length_write_at a pos xs :
  (pos + length xs <= length a)%nat ->
  length (Slices.write_at a pos xs) = length a.
Proof.
  intros H. unfold Slices.write_at.
  rewrite !length_app, length_firstn, length_skipn. lia.
Qed.

Lemma write_at_split a pos xs :
  (pos + length xs <= length a)%nat ->
  exists p q r,
    a = p ++ q ++ r /\ length p = pos /\ length q = length xs /\
    Slices.write_at a pos xs = p ++ xs ++ r.
Proof.
  intros H.
  exists (firstn pos a), (firstn (length xs) (skipn pos a)),
         (skipn (pos + length xs) a).
  split; [|split; [|split]].
  - rewrite <- (firstn_skipn pos a) at 1. f_equal.
    rewrite <- (firstn_skipn (length xs) (skipn pos a)) at 1. f_equal.
    rewrite skipn_skipn. f_equal. lia.
  - rewrite length_firstn. lia.
  - rewrite length_firstn, length_skipn. lia.
  - reflexivity.
Qed.

Lemma window_outside (p q q' r : list A) o n :
  length q = length q' ->
  (o + n <= length p \/ length p + length q <= o)%nat ->
  firstn n (skipn o (p ++ q' ++ r)) = firstn n (skipn o (p ++ q ++ r)).
Proof.
  intros Hq [Hbefore|Hafter].
  - rewrite !skipn_app, !firstn_app, !length_skipn.
    replace (n - (length p - o))%nat with 0%nat by lia.
    rewrite !firstn_O. reflexivity.
  - rewrite !skipn_app.
    rewrite (skipn_all2 p) by lia.
    rewrite (skipn_all2 q) by lia.
    rewrite (skipn_all2 q') by lia.
    rewrite Hq. reflexivity.
Qed.

(** Reading a window that ends before the written positions, or starts
    after them, is unaffected by the write. *)
Lemma window_write_at a pos xs o n :
  (pos + length xs <= length a)%nat ->
  (o + n <= pos \/ pos + length xs <= o)%nat ->
  firstn n (skipn o (Slices.write_at a pos xs)) = firstn n (skipn o a).
Proof.
  intros Hin Hdis.
  destruct (write_at_split a pos xs Hin) as [p [q [r [Ha [Hp [Hq ->]]]]]].
  rewrite Ha. apply window_outside; [exact Hq | lia].
Qed.

(** Reading from [o] up to the end of the written positions. *)
Lemma window_write_at_through a pos xs o :
  (o <= pos)%nat -> (pos + length xs <= length a)%nat ->
  firstn (pos - o + length xs) (skipn o (Slices.write_at a pos xs))
  = firstn (pos - o) (skipn o a) ++ xs.
Proof.
  intros Ho Hin.
  destruct (write_at_split a pos xs Hin) as [p [q [r [Ha [Hp [Hq ->]]]]]].
  rewrite Ha.
  assert (Hs : forall X : list A, skipn o (p ++ X) = skipn o p ++ X).
  { intros X. rewrite skipn_app.
    replace (o - length p)%nat with 0%nat by lia. reflexivity. }
  rewrite !Hs.
  assert (Hl : length (skipn o p) = (pos - o)%nat)
    by (rewrite length_skipn; lia).
  rewrite <- Hl. rewrite firstn_app_2.
  rewrite (firstn_app (length (skipn o p))), Nat.sub_diag, firstn_O,
    app_nil_r, firstn_all.
  f_equal.
  rewrite firstn_app, Nat.sub_diag, firstn_O, app_nil_r.
  apply firstn_all.
Qed.

Lemma write_at_nil a pos : Slices.write_at a pos [] = a.
Proof.
  unfold Slices.write_at. simpl. rewrite Nat.add_0_r.
  apply firstn_skipn.
Qed.

(** The result of [append] holds the old elements, then the new. *)
Lemma elems_append (zero : A) spare m s xs :
  Slices.slice_ok m s ->
  Slices.elems (snd (Slices.append zero spare m s xs))
               (fst (Slices.append zero spare m s xs))
  = Slices.elems m s ++ xs.
Proof.
  intros Hok. pose proof (length_elems m s Hok) as Hlen.
  destruct Hok as [Hcap Hin]. unfold Slices.append.
  destruct (Nat.leb_spec (Slices.slen s + length xs) (Slices.scap s))
    as [Hfit|Hgrow]; simpl.
  - destruct (Nat.lt_ge_cases (Slices.arr s) (length m)) as [Hlt|Hge].
    + unfold Slices.elems at 1. simpl.
      rewrite array_at_insert_eq by exact Hlt.
      replace (Slices.slen s + length xs)%nat
        with (Slices.off s + Slices.slen s - Slices.off s + length xs)%nat
        by lia.
      rewrite window_write_at_through by lia.
      unfold Slices.elems. f_equal. f_equal. lia.
    + rewrite insert_out_of_range by exact Hge.
      assert (Hnil : Slices.array_at m (Slices.arr s) = []).
      { unfold Slices.array_at. apply nth_overflow. exact Hge. }
      rewrite Hnil in Hin. simpl in Hin.
      assert (Hxs : xs = []) by (destruct xs; [reflexivity | simpl in Hfit; lia]).
      subst xs. unfold Slices.elems. simpl. rewrite Hnil.
      rewrite app_nil_r, Nat.add_0_r. reflexivity.
  - unfold Slices.elems at 1. simpl. rewrite array_at_app_new.
    rewrite skipn_O, app_assoc, firstn_app.
    assert (Hl : length (Slices.elems m s ++ xs)
                 = (Slices.slen s + length xs)%nat)
      by (rewrite length_app, Hlen; reflexivity).
    rewrite Hl, Nat.sub_diag, firstn_O, app_nil_r.
    apply firstn_all2. lia.
Qed.

(** [append] leaves alone what it is [apart] from. *)
Lemma append_frame (zero : A) spare m s xs u :
  Slices.slice_ok m s -> Slices.slice_ok m u ->
  Slices.apart s (length xs) u ->
  Slices.elems (snd (Slices.append zero spare m s xs)) u
  = Slices.elems m u.
Proof.
  intros [Hcap Hin] [Hucap Huin] Hapart. unfold Slices.append.
  destruct (Nat.leb_spec (Slices.slen s + length xs) (Slices.scap s))
    as [Hfit|Hgrow]; simpl.
  - destruct (Nat.lt_ge_cases (Slices.arr s) (length m)) as [Hlt|Hge].
    2:{ rewrite insert_out_of_range by exact Hge. reflexivity. }
    destruct Hapart as [Hk|[Hre|[Harr|Hwin]]].
    + destruct xs; [|discriminate]. rewrite write_at_nil.
      unfold Slices.elems.
      destruct (Nat.eq_dec (Slices.arr u) (Slices.arr s)) as [->|Hne].
      * rewrite array_at_insert_eq by exact Hlt. reflexivity.
      * rewrite array_at_insert_ne by congruence. reflexivity.
    + lia.
    + unfold Slices.elems. rewrite array_at_insert_ne by congruence.
      reflexivity.
    + unfold Slices.elems.
      destruct (Nat.eq_dec (Slices.arr u) (Slices.arr s)) as [->|Hne].
      * rewrite array_at_insert_eq by exact Hlt.
        apply window_write_at; lia.
      * rewrite array_at_insert_ne by congruence. reflexivity.
  - unfold Slices.elems.
    destruct (Nat.lt_ge_cases (Slices.arr u) (length m)) as [Hlt|Hge].
    + rewrite array_at_app_old by exact Hlt. reflexivity.
    + assert (Hnil : Slices.array_at m (Slices.arr u) = []).
      { unfold Slices.array_at. apply nth_overflow. exact Hge. }
      rewrite Hnil in Huin. simpl in Huin.
      replace (Slices.slen u) with 0%nat by lia. reflexivity.
Qed.
End ArrayFacts.

(** ** The functions on values and the functions on slices *)

Lemma len_elems {A : Type} (m : Slices.store A) (s : Slices.slice) :
  Slices.slice_ok m s -> len (Slices.elems m s) = Z.of_nat (Slices.slen s).
Proof. intros H. unfold len. rewrite (length_elems m s H). reflexivity. Qed.

(** The row-length loop on slice headers is the loop on the rows read. *)
Lemma rowLengthLoop_on_slices (c : Slices.store string) (n : nat)
    (rs : list Slices.slice) :
  Forall (Slices.slice_ok c) rs ->
  Slices.rowLengthLoop n rs
  = rowLengthLoop (Z.of_nat n) (map (Slices.elems c) rs).
Proof.
  induction rs as [|row rest IH]; intros Hok; simpl; [reflexivity|].
  inversion Hok as [|? ? Hrow Hrest]; subst.
  rewrite (len_elems c row Hrow).
  replace (Z.of_nat (Slices.slen row) =? Z.of_nat n)
    with (Slices.slen row =? n)%nat.
  - destruct (Slices.slen row =? n)%nat; simpl; [apply IH, Hrest|reflexivity].
  - destruct (Nat.eqb_spec (Slices.slen row) n) as [->|Hne].
    + symmetry. apply Z.eqb_refl.
    + symmetry. apply Z.eqb_neq. lia.
Qed.

(** [AppendRow] on slices, seen through [view], is [AppendRow] on the
    values, for the table it is called on. *)
Lemma AppendRow_on_slices_view (spare : nat -> nat -> nat)
    (h : Slices.heap) (t : Slices.DataTable) (row : Slices.slice) :
  table_ok h t -> Slices.slice_ok (Slices.cells h) row ->
  let r := Slices.AppendRow spare h t row in
  (fst (fst r), view (snd r) (snd (fst r)))
  = AppendRow (view h t) (Slices.elems (Slices.cells h) row).
Proof.
  intros [Hf [Hr Hrows]] Hrow. unfold Slices.AppendRow, AppendRow.
  cbn [fields view].
  rewrite (len_elems _ _ Hrow), (len_elems _ _ Hf).
  replace (Z.of_nat (Slices.slen row) =? Z.of_nat (Slices.slen (Slices.fields t)))
    with (Slices.slen row =? Slices.slen (Slices.fields t))%nat.
  2:{ destruct (Nat.eqb_spec (Slices.slen row) (Slices.slen (Slices.fields t)))
        as [->|Hne]; symmetry; [apply Z.eqb_refl | apply Z.eqb_neq; lia]. }
  destruct (Slices.slen row =? Slices.slen (Slices.fields t))%nat; simpl.
  2:{ reflexivity. }
  pose proof (elems_append Slices.nil_slice spare (Slices.rowArrays h)
                (Slices.rows t) [row] Hr) as Happ.
  destruct (Slices.append Slices.nil_slice spare (Slices.rowArrays h)
              (Slices.rows t) [row]) as [rows' ra'].
  simpl in *. unfold view. simpl. rewrite Happ, map_app. reflexivity.
Qed.

Lemma slice_expr_ok (s : Slices.slice) (lo hi : Z) :
  0 <= lo <= hi -> hi <= Z.of_nat (Slices.scap s) ->
  Slices.slice_expr s lo hi
  = Ret (Slices.mkSlice (Slices.arr s) (Slices.off s + Z.to_nat lo)
           (Z.to_nat (hi - lo)) (Slices.scap s - Z.to_nat lo)).
Proof.
  intros H1 H2. unfold Slices.slice_expr.
  replace (0 <=? lo) with true by (symmetry; apply Z.leb_le; lia).
  replace (lo <=? hi) with true by (symmetry; apply Z.leb_le; lia).
  replace (hi <=? Z.of_nat (Slices.scap s)) with true
    by (symmetry; apply Z.leb_le; lia).
  reflexivity.
Qed.

Lemma slice_expr_panics (s : Slices.slice) (lo hi : Z) :
  ~ (0 <= lo <= hi /\ hi <= Z.of_nat (Slices.scap s)) ->
  Slices.slice_expr s lo hi = Panic SliceBoundsOutOfRange.
Proof.
  intros H. unfold Slices.slice_expr.
  destruct ((0 <=? lo) && (lo <=? hi) && (hi <=? Z.of_nat (Slices.scap s)))
    eqn:E; [|reflexivity].
  apply andb_true_iff in E. destruct E as [E E3].
  apply andb_true_iff in E. destruct E as [E1 E2].
  apply Z.leb_le in E1, E2, E3. lia.
Qed.

(** X17: on slices with their storage, [RemoveRow] does to the table it is
    called on what [RemoveRow] on values says: for an index of the table
    the rows before and after it remain, in order; for any other index
    one of the two slice expressions panics, whatever the capacity of the
    row slice, and the table is as it was. *)
Theorem RemoveRow_on_slices (spare : nat -> nat -> nat) (h : Slices.heap)
    (t : Slices.DataTable) (index : Z) (Hok : table_ok h t) :
  let r := Slices.RemoveRow spare h t index in
  (fst (fst r), view (snd r) (snd (fst r))) = RemoveRow (view h t) index.
Proof.
  destruct Hok as [Hf [Hr Hrows]]. pose proof Hr as [Hcap Hin].
  set (n := Slices.slen (Slices.rows t)).
  assert (Hlen : len (rows (view h t)) = Z.of_nat n).
  { unfold view, len. simpl. rewrite length_map.
    rewrite (length_elems _ _ Hr). reflexivity. }
  destruct (Z_le_dec 0 index) as [Hlo|Hlo];
    [destruct (Z_lt_dec index (Z.of_nat n)) as [Hhi|Hhi]|].
  - (* an index of the table *)
    unfold Slices.RemoveRow, RemoveRow. rewrite Hlen.
    replace ((0 <=? index) && (index <? Z.of_nat n)) with true.
    2:{ symmetry. apply andb_true_iff.
        split; [apply Z.leb_le | apply Z.ltb_lt]; lia. }
    rewrite slice_expr_ok by (fold n; lia).
    rewrite slice_expr_ok by (fold n; lia). fold n.
    set (head := Slices.mkSlice _ _ (Z.to_nat (index - 0)) _).
    set (tail := Slices.mkSlice _ _ (Z.to_nat (Z.of_nat n - (index + 1))) _).
    assert (Hhead : Slices.slice_ok (Slices.rowArrays h) head).
    { unfold Slices.slice_ok, head. simpl. fold n in Hcap. lia. }
    pose proof (elems_append Slices.nil_slice spare (Slices.rowArrays h)
                  head (Slices.elems (Slices.rowArrays h) tail) Hhead)
      as Happ.
    destruct (Slices.append Slices.nil_slice spare (Slices.rowArrays h)
                head (Slices.elems (Slices.rowArrays h) tail))
      as [rows' ra'].
    simpl in *. unfold view. simpl. rewrite Happ. f_equal. f_equal.
    rewrite map_app, firstn_map, skipn_map. f_equal.
    + f_equal. unfold Slices.elems, head. simpl.
      rewrite Nat.add_0_r, Z.sub_0_r. fold n.
      rewrite firstn_firstn. f_equal. lia.
    + f_equal. unfold Slices.elems, tail. simpl. fold n.
      rewrite skipn_firstn_comm, skipn_skipn. f_equal; [lia|].
      f_equal. lia.
  - (* at or beyond the last row *)
    rewrite RemoveRow_out_of_range by lia.
    unfold Slices.RemoveRow.
    destruct (Z_le_dec index (Z.of_nat (Slices.scap (Slices.rows t))))
      as [Hc|Hc].
    + rewrite slice_expr_ok by lia.
      rewrite slice_expr_panics by (fold n; lia). reflexivity.
    + rewrite slice_expr_panics by lia. reflexivity.
  - (* a negative index *)
    rewrite RemoveRow_out_of_range by lia.
    unfold Slices.RemoveRow. rewrite slice_expr_panics by lia. reflexivity.
Qed.

(** [validateFields] on slices returns what [validateFields] returns on
    the values, and leaves alone what its append is apart from. *)
Lemma validateFields_on_slices (spare : nat -> nat -> nat)
    (h : Slices.heap) (t : Slices.DataTable) :
  Slices.slice_ok (Slices.cells h) (Slices.fields t) ->
  options_apart h t ->
  let r := Slices.validateFields spare h t in
  fst r = validateFields (view h t) /\
  Slices.rowArrays (snd r) = Slices.rowArrays h /\
  (forall u,
      Slices.slice_ok (Slices.cells h) u ->
      (forall o, Slices.options t = Some o ->
         Slices.apart (Slices.OptionalFields o)
                      (Slices.slen (Slices.RequiredFields o)) u) ->
      Slices.elems (Slices.cells (snd r)) u = Slices.elems (Slices.cells h) u).
Proof.
  intros Hf Hopt. unfold Slices.validateFields, validateFields, view.
  cbn [options fields]. destruct (Slices.options t) as [o|] eqn:Ho; simpl.
  2:{ auto. }
  destruct (Hopt o Ho) as [HO [HR [HaR [Haf Harows]]]].
  destruct (requiredLoop (Slices.elems (Slices.cells h) (Slices.fields t))
              (Slices.elems (Slices.cells h) (Slices.RequiredFields o)))
    as [err|]; simpl.
  { auto. }
  rewrite (len_elems _ _ HO).
  destruct (Z.of_nat (Slices.slen (Slices.OptionalFields o)) =? 0); simpl.
  { auto. }
  pose proof (elems_append EmptyString spare (Slices.cells h)
                (Slices.OptionalFields o)
                (Slices.elems (Slices.cells h) (Slices.RequiredFields o)) HO)
    as Happ.
  assert (Hframe : forall u,
             Slices.slice_ok (Slices.cells h) u ->
             Slices.apart (Slices.OptionalFields o)
                          (Slices.slen (Slices.RequiredFields o)) u ->
             Slices.elems
               (snd (Slices.append EmptyString spare (Slices.cells h)
                       (Slices.OptionalFields o)
                       (Slices.elems (Slices.cells h)
                                     (Slices.RequiredFields o)))) u
             = Slices.elems (Slices.cells h) u).
  { intros u Hu Ha. apply append_frame; [exact HO | exact Hu |].
    rewrite (length_elems _ _ HR). exact Ha. }
  destruct (Slices.append EmptyString spare (Slices.cells h)
              (Slices.OptionalFields o)
              (Slices.elems (Slices.cells h) (Slices.RequiredFields o)))
    as [allowedFields cells'].
  simpl in *. rewrite Happ, (Hframe _ Hf Haf).
  split; [reflexivity|]. split; [reflexivity|].
  intros u Hu Ha. apply Hframe; [exact Hu | apply Ha; reflexivity].
Qed.

Lemma apart_self (s : Slices.slice) (k : nat) : Slices.apart s k s.
Proof. unfold Slices.apart. right. right. right. left. lia. Qed.

(** [NewWithOptions] on slices, seen through [view], is [NewWithOptions]
    on the values, when the append of [validateFields] is apart from the
    required list, the fields and the rows. *)
Lemma NewWithOptions_on_slices_view (spare : nat -> nat -> nat)
    (h : Slices.heap) (opts : option Slices.Options)
    (fs rs : Slices.slice) :
  table_ok h (Slices.mkDataTable fs rs opts) ->
  options_apart h (Slices.mkDataTable fs rs opts) ->
  let r := Slices.NewWithOptions spare h opts fs rs in
  (option_map (view (snd r)) (fst (fst r)), snd (fst r))
  = NewWithOptions (option_map (view_options h) opts)
      (Slices.elems (Slices.cells h) fs)
      (map (Slices.elems (Slices.cells h))
           (Slices.elems (Slices.rowArrays h) rs)).
Proof.
  intros [Hf [Hr Hrows]] Hopt. simpl in Hf, Hr, Hrows.
  unfold Slices.NewWithOptions, NewWithOptions.
  rewrite (rowLengthLoop_on_slices (Slices.cells h) _ _ Hrows).
  rewrite (len_elems _ _ Hf).
  destruct (rowLengthLoop (Z.of_nat (Slices.slen fs))
              (map (Slices.elems (Slices.cells h))
                   (Slices.elems (Slices.rowArrays h) rs))) as [err|];
    simpl; [reflexivity|].
  set (dt := Slices.mkDataTable fs rs opts).
  destruct (validateFields_on_slices spare h dt Hf Hopt)
    as [Hres [Hra Hframe]].
  change (mkDataTable (Slices.elems (Slices.cells h) fs)
            (map (Slices.elems (Slices.cells h))
                 (Slices.elems (Slices.rowArrays h) rs))
            (option_map (view_options h) opts)) with (view h dt).
  rewrite <- Hres.
  destruct (Slices.validateFields spare h dt) as [[err|] h'];
    simpl in *; [reflexivity|].
  f_equal. f_equal. unfold view. simpl. rewrite Hra. f_equal.
  - apply Hframe; [exact Hf|]. intros o Ho. apply (Hopt o Ho).
  - apply map_ext_in. intros u Hu.
    apply Hframe.
    + rewrite List.Forall_forall in Hrows. apply Hrows, Hu.
    + intros o Ho. destruct (Hopt o Ho) as [_ [_ [_ [_ Ha]]]].
      simpl in Ha. rewrite List.Forall_forall in Ha. apply Ha, Hu.
  - destruct opts as [o|]; [|reflexivity]. simpl. f_equal.
    destruct (Hopt o eq_refl) as [HO [HR [HaR _]]].
    unfold view_options. f_equal.
    + apply Hframe; [exact HO|]. intros o' Ho'. injection Ho' as <-.
      apply apart_self.
    + apply Hframe; [exact HR|]. intros o' Ho'. injection Ho' as <-.
      exact HaR.
Qed.

(** ** Shared storage *)

(** C3 fails when the option lists share storage with the fields: with
    [buf] holding "a", "b", the optional list [buf[:1]] and the required
    list "a", the field "b" is in neither list, and construction on these
    values is the additional-field error for "b"; yet construction on the
    slices returns a table and no error, and the fields then read "a",
    "a": the append of [validateFields] has written the required list
    over them. *)
Theorem NewWithOptions_overwrites_fields (spare : nat -> nat -> nat) :
  view_options shared_fields_heap shared_fields_options
    = mkOptions ["a"] ["a"] /\
  Slices.elems (Slices.cells shared_fields_heap) shared_fields_buf
    = ["a"; "b"] /\
  ~ In "b" (["a"] ++ ["a"]) /\
  NewWithOptions (Some (mkOptions ["a"] ["a"])) ["a"; "b"] []
    = (None, Some (ErrAdditionalField "b" ["a"; "a"])) /\
  exists h1,
    shared_fields_run spare
      = ((Some (Slices.mkDataTable shared_fields_buf Slices.nil_slice
                                   (Some shared_fields_options)), None),
         h1) /\
    Slices.elems (Slices.cells h1) shared_fields_buf = ["a"; "a"].
Proof.
  split; [reflexivity|]. split; [reflexivity|]. split.
  - simpl. intros [H|[H|[]]]; discriminate.
  - split; [reflexivity|]. eexists. split; reflexivity.
Qed.

(** C7 fails for tables made on one row slice with spare capacity: after
    the four calls of [shared_rows_run], none of which returns an error,
    the table [a] of fields "x", "y" holds the one-cell row "3" that was
    appended to [b], and [Rows] on it panics. *)
Theorem AppendRow_through_shared_rows (spare : nat -> nat -> nat) :
  exists a b h,
    shared_rows_run spare = Some (a, b, h) /\
    view h a = mkDataTable ["x"; "y"] [["3"]] None /\
    view h b = mkDataTable ["z"] [["3"]] None /\
    ~ row_lengths_ok (view h a) /\
    DataTable_Rows (view h a) = Panic (IndexOutOfRange 1 1).
Proof.
  do 3 eexists. split; [reflexivity|]. split; [reflexivity|].
  split; [reflexivity|]. split; [|reflexivity].
  intros H. inversion H as [|? ? Hlen _]. discriminate.
Qed.

(** ** Mutation on slices *)

(** X16: on slices with their storage, [AppendRow] does to the table it is
    called on what [AppendRow] on values says: the same error or none,
    and afterwards the same fields, the old rows followed by the new one,
    the same options.  Another table keeps what it held when the append
    is apart from its row slice. *)
Theorem AppendRow_on_slices (spare : nat -> nat -> nat) (h : Slices.heap)
    (t : Slices.DataTable) (row : Slices.slice)
    (Hok : table_ok h t) (Hrow : Slices.slice_ok (Slices.cells h) row) :
  let r := Slices.AppendRow spare h t row in
  (fst (fst r), view (snd r) (snd (fst r)))
  = AppendRow (view h t) (Slices.elems (Slices.cells h) row)
  /\ (forall a,
        table_ok h a -> Slices.apart (Slices.rows t) 1 (Slices.rows a) ->
        view (snd r) a = view h a).
Proof.
  split; [exact (AppendRow_on_slices_view spare h t row Hok Hrow)|].
  intros a [_ [Ha _]] Hapart. destruct Hok as [_ [Hr _]].
  unfold Slices.AppendRow.
  destruct (negb (Slices.slen row =? Slices.slen (Slices.fields t))%nat);
    [reflexivity|].
  pose proof (append_frame Slices.nil_slice spare (Slices.rowArrays h)
                (Slices.rows t) [row] (Slices.rows a) Hr Ha Hapart)
    as Hframe.
  destruct (Slices.append Slices.nil_slice spare (Slices.rowArrays h)
              (Slices.rows t) [row]) as [rows' ra'].
  simpl in *. unfold view. simpl. rewrite Hframe. reflexivity.
Qed.

Lemma roomy_table_ok : table_ok roomy_heap roomy_table.
Proof.
  unfold table_ok, Slices.slice_ok. simpl.
  split; [lia|]. split; [lia|].
  constructor; [simpl; lia | constructor].
Qed.

Lemma AppendRow_on_slices_witness :
  table_ok roomy_heap roomy_table /\
  let r := Slices.AppendRow (fun _ _ => 0%nat) roomy_heap roomy_table
             (Slices.mkSlice 2 0 2 2) in
  (fst (fst r), view (snd r) (snd (fst r)))
  = (None, mkDataTable ["one"; "two"] [["1"; "2"]; ["3"; "4"]] None).
Proof.
  assert (Hrow : Slices.slice_ok (Slices.cells roomy_heap)
                   (Slices.mkSlice 2 0 2 2))
    by (unfold Slices.slice_ok; simpl; lia).
  split; [exact roomy_table_ok|].
  exact (proj1 (AppendRow_on_slices (fun _ _ => 0%nat) roomy_heap
                  roomy_table (Slices.mkSlice 2 0 2 2)
                  roomy_table_ok Hrow)).
Defined.

(** Index 1 of the table with one row and capacity for two: [t.rows[:1]]
    is fine, [t.rows[2:]] panics. *)
Lemma RemoveRow_on_slices_witness :
  table_ok roomy_heap roomy_table /\
  let r := Slices.RemoveRow (fun _ _ => 0%nat) roomy_heap roomy_table 1 in
  (fst (fst r), view (snd r) (snd (fst r)))
  = (Panic SliceBoundsOutOfRange,
     mkDataTable ["one"; "two"] [["1"; "2"]] None).
Proof.
  split; [exact roomy_table_ok|].
  exact (RemoveRow_on_slices (fun _ _ => 0%nat) roomy_heap roomy_table 1
           roomy_table_ok).
Defined.

(** ** Construction on slices *)

Lemma schema_heap_ok :
  table_ok schema_heap
    (Slices.mkDataTable (Slices.mkSlice 0 0 3 3) (Slices.mkSlice 0 0 1 1)
                        (Some schema_options)) /\
  options_apart schema_heap
    (Slices.mkDataTable (Slices.mkSlice 0 0 3 3) (Slices.mkSlice 0 0 1 1)
                        (Some schema_options)).
Proof.
  split.
  - unfold table_ok, Slices.slice_ok. simpl.
    split; [lia|]. split; [lia|]. constructor; [simpl; lia | constructor].
  - intros o Ho. injection Ho as <-. unfold Slices.slice_ok. simpl.
    split; [lia|]. split; [lia|].
    split; [right; right; left; discriminate|].
    split; [right; right; left; discriminate|].
    constructor; [right; right; left; discriminate | constructor].
Qed.

Lemma schema_heap_unknown_ok :
  table_ok schema_heap_unknown
    (Slices.mkDataTable (Slices.mkSlice 0 0 4 4) (Slices.mkSlice 0 0 1 1)
                        (Some schema_options)) /\
  options_apart schema_heap_unknown
    (Slices.mkDataTable (Slices.mkSlice 0 0 4 4) (Slices.mkSlice 0 0 1 1)
                        (Some schema_options)).
Proof.
  split.
  - unfold table_ok, Slices.slice_ok. simpl.
    split; [lia|]. split; [lia|]. constructor; [simpl; lia | constructor].
  - intros o Ho. injection Ho as <-. unfold Slices.slice_ok. simpl.
    split; [lia|]. split; [lia|].
    split; [right; right; left; discriminate|].
    split; [right; right; left; discriminate|].
    constructor; [right; right; left; discriminate | constructor].
Qed.

(** X18: when the slices lie inside their arrays and the append of
    [validateFields] onto the optional list writes no element of the
    required list, of the fields or of a row, [NewWithOptions] on slices
    returns what [NewWithOptions] on values returns for the fields, rows
    and option lists read from the memory: the same error, or the table
    holding those fields, rows and lists. *)
Theorem NewWithOptions_on_separate_slices (spare : nat -> nat -> nat)
    (h : Slices.heap) (opts : option Slices.Options)
    (fs rs : Slices.slice)
    (Hok : table_ok h (Slices.mkDataTable fs rs opts))
    (Hapart : options_apart h (Slices.mkDataTable fs rs opts)) :
  let r := Slices.NewWithOptions spare h opts fs rs in
  (option_map (view (snd r)) (fst (fst r)), snd (fst r))
  = NewWithOptions (option_map (view_options h) opts)
      (Slices.elems (Slices.cells h) fs)
      (map (Slices.elems (Slices.cells h))
           (Slices.elems (Slices.rowArrays h) rs)).
Proof. exact (NewWithOptions_on_slices_view spare h opts fs rs Hok Hapart). Qed.

Lemma NewWithOptions_on_separate_slices_witness :
  let r := Slices.NewWithOptions (fun _ _ => 0%nat) schema_heap
             (Some schema_options) (Slices.mkSlice 0 0 3 3)
             (Slices.mkSlice 0 0 1 1) in
  (option_map (view (snd r)) (fst (fst r)), snd (fst r))
  = NewWithOptions (Some sample_options) ["name"; "value"; "tag"]
                   [["foo"; "bar"; "baz"]].
Proof.
  exact (NewWithOptions_on_separate_slices (fun _ _ => 0%nat) schema_heap
           (Some schema_options) (Slices.mkSlice 0 0 3 3)
           (Slices.mkSlice 0 0 1 1)
           (proj1 schema_heap_ok) (proj2 schema_heap_ok)).
Defined.

(** X9: under the same conditions, [NewWithOptions] on slices returns a
    table exactly when every row has the length of the fields and, with
    options, every required name is a field and, the optional list being
    non-empty, every field is an optional or a required name. *)
Theorem NewWithOptions_on_slices_success_iff (spare : nat -> nat -> nat)
    (h : Slices.heap) (opts : option Slices.Options)
    (fs rs : Slices.slice)
    (Hok : table_ok h (Slices.mkDataTable fs rs opts))
    (Hapart : options_apart h (Slices.mkDataTable fs rs opts)) :
  let F := Slices.elems (Slices.cells h) fs in
  (exists t h',
      Slices.NewWithOptions spare h opts fs rs = ((Some t, None), h'))
  <->
  Forall (fun row => Slices.slen row = Slices.slen fs)
         (Slices.elems (Slices.rowArrays h) rs) /\
  (forall o, opts = Some o ->
     let Opt := Slices.elems (Slices.cells h) (Slices.OptionalFields o) in
     let Req := Slices.elems (Slices.cells h) (Slices.RequiredFields o) in
     Forall (fun r => In r F) Req /\
     (Opt <> [] -> Forall (fun f => In f (Opt ++ Req)) F)).
Proof.
  intros F.
  pose proof (NewWithOptions_on_slices_view spare h opts fs rs Hok Hapart)
    as Href. simpl in Href.
  destruct Hok as [Hf [Hr Hrows]]. simpl in Hf, Hr, Hrows.
  assert (Hlens :
            Forall (fun row => Slices.slen row = Slices.slen fs)
                   (Slices.elems (Slices.rowArrays h) rs)
            <-> Forall (fun r => len r = len F)
                       (map (Slices.elems (Slices.cells h))
                            (Slices.elems (Slices.rowArrays h) rs))).
  { rewrite List.Forall_map. unfold F. rewrite (len_elems _ _ Hf).
    rewrite !List.Forall_forall. rewrite List.Forall_forall in Hrows.
    split; intros H u Hu; specialize (H u Hu);
      rewrite (len_elems _ _ (Hrows u Hu)) in *; lia. }
  split.
  - intros [t [h' Hrun]]. rewrite Hrun in Href. simpl in Href.
    symmetry in Href. apply NewWithOptions_success_iff in Href.
    destruct Href as [_ [Hl Hs]]. split; [apply Hlens, Hl|].
    intros o ->. apply (Hs (view_options h o) eq_refl).
  - intros [Hl Hs]. apply Hlens in Hl.
    assert (Hval :
              NewWithOptions (option_map (view_options h) opts) F
                (map (Slices.elems (Slices.cells h))
                     (Slices.elems (Slices.rowArrays h) rs))
              = (Some (mkDataTable F
                         (map (Slices.elems (Slices.cells h))
                              (Slices.elems (Slices.rowArrays h) rs))
                         (option_map (view_options h) opts)), None)).
    { apply NewWithOptions_success_iff. split; [reflexivity|].
      split; [exact Hl|]. intros ov Hov.
      destruct opts as [o|]; [|discriminate]. injection Hov as <-.
      apply (Hs o eq_refl). }
    fold F in Href. rewrite Hval in Href.
    destruct (Slices.NewWithOptions spare h opts fs rs) as [[ot oe] h'].
    simpl in Href. injection Href as Ht He.
    destruct ot as [t|]; [|discriminate]. subst oe. eauto.
Qed.

Lemma NewWithOptions_on_slices_success_iff_witness :
  exists t h',
    Slices.NewWithOptions (fun _ _ => 0%nat) schema_heap
      (Some schema_options) (Slices.mkSlice 0 0 3 3)
      (Slices.mkSlice 0 0 1 1) = ((Some t, None), h').
Proof.
  apply (NewWithOptions_on_slices_success_iff (fun _ _ => 0%nat)
           schema_heap (Some schema_options) (Slices.mkSlice 0 0 3 3)
           (Slices.mkSlice 0 0 1 1)
           (proj1 schema_heap_ok) (proj2 schema_heap_ok)).
  split.
  - repeat constructor.
  - intros o Ho. injection Ho as <-. simpl. split.
    + repeat constructor; simpl; tauto.
    + intros _. repeat constructor; simpl; tauto.
Defined.

(** X10: under the same conditions, an error of [NewWithOptions] on slices
    names a real violation in what the slices hold: the row-length error
    carries the length of the fields and of the first row of another
    length; the missing-field error names the first required name that is
    not a field, all rows being right; the additional-field error names
    the first field that is neither an optional nor a required name, the
    optional list being non-empty and the required names all present,
    and lists the optional names followed by the required ones. *)
Theorem NewWithOptions_on_slices_error_sound (spare : nat -> nat -> nat)
    (h : Slices.heap) (opts : option Slices.Options)
    (fs rs : Slices.slice) (e : error)
    (Hok : table_ok h (Slices.mkDataTable fs rs opts))
    (Hapart : options_apart h (Slices.mkDataTable fs rs opts))
    (Herr : snd (fst (Slices.NewWithOptions spare h opts fs rs)) = Some e) :
  let F := Slices.elems (Slices.cells h) fs in
  let R := map (Slices.elems (Slices.cells h))
               (Slices.elems (Slices.rowArrays h) rs) in
  (exists row,
      first_bad_row (len F) R row /\ e = ErrRowLength (len F) (len row))
  \/ (exists o f,
         opts = Some o /\ Forall (fun r => len r = len F) R /\
         first_outside
           (Slices.elems (Slices.cells h) (Slices.RequiredFields o)) F f /\
         e = ErrMissingField f)
  \/ (exists o f,
         let Opt := Slices.elems (Slices.cells h) (Slices.OptionalFields o) in
         let Req := Slices.elems (Slices.cells h) (Slices.RequiredFields o) in
         opts = Some o /\ Forall (fun r => len r = len F) R /\
         Forall (fun r => In r F) Req /\ Opt <> [] /\
         first_outside F (Opt ++ Req) f /\
         e = ErrAdditionalField f (Opt ++ Req)).
Proof.
  intros F R.
  pose proof (NewWithOptions_on_slices_view spare h opts fs rs Hok Hapart)
    as Href. simpl in Href. fold F R in Href.
  apply (f_equal snd) in Href. simpl in Href. rewrite Herr in Href.
  symmetry in Href. apply NewWithOptions_error_inv in Href.
  destruct Href as [H|[[ov [f [Hov H]]]|[ov [f [Hov H]]]]].
  - left. exact H.
  - right. left. destruct opts as [o|]; [|discriminate].
    injection Hov as <-. exists o, f. split; [reflexivity | exact H].
  - right. right. destruct opts as [o|]; [|discriminate].
    injection Hov as <-. exists o, f. split; [reflexivity | exact H].
Qed.

(** "required and optional fields, unknown additional field" of the
    package's tests, on slices. *)
Lemma NewWithOptions_on_slices_error_sound_witness :
  snd (fst (Slices.NewWithOptions (fun _ _ => 0%nat) schema_heap_unknown
              (Some schema_options) (Slices.mkSlice 0 0 4 4)
              (Slices.mkSlice 0 0 1 1)))
    = Some (ErrAdditionalField "unknown" ["tag"; "name"; "value"]) /\
  let h := schema_heap_unknown in
  let opts := Some schema_options in
  let e := ErrAdditionalField "unknown" ["tag"; "name"; "value"] in
  let F := Slices.elems (Slices.cells h) (Slices.mkSlice 0 0 4 4) in
  let R := map (Slices.elems (Slices.cells h))
               (Slices.elems (Slices.rowArrays h) (Slices.mkSlice 0 0 1 1)) in
  (exists row,
      first_bad_row (len F) R row /\ e = ErrRowLength (len F) (len row))
  \/ (exists o f,
         opts = Some o /\ Forall (fun r => len r = len F) R /\
         first_outside
           (Slices.elems (Slices.cells h) (Slices.RequiredFields o)) F f /\
         e = ErrMissingField f)
  \/ (exists o f,
         let Opt := Slices.elems (Slices.cells h) (Slices.OptionalFields o) in
         let Req := Slices.elems (Slices.cells h) (Slices.RequiredFields o) in
         opts = Some o /\ Forall (fun r => len r = len F) R /\
         Forall (fun r => In r F) Req /\ Opt <> [] /\
         first_outside F (Opt ++ Req) f /\
         e = ErrAdditionalField f (Opt ++ Req)).
Proof.
  assert (Herr :
            snd (fst (Slices.NewWithOptions (fun _ _ => 0%nat)
                        schema_heap_unknown (Some schema_options)
                        (Slices.mkSlice 0 0 4 4) (Slices.mkSlice 0 0 1 1)))
            = Some (ErrAdditionalField "unknown" ["tag"; "name"; "value"]))
    by reflexivity.
  split; [exact Herr|].
  exact (NewWithOptions_on_slices_error_sound (fun _ _ => 0%nat)
           schema_heap_unknown (Some schema_options)
           (Slices.mkSlice 0 0 4 4) (Slices.mkSlice 0 0 1 1) _
           (proj1 schema_heap_unknown_ok) (proj2 schema_heap_unknown_ok)
           Herr).
Defined.
